(** * ContentRefine: the content-processing pipeline of [backend/server.py]

    A shallow embedding of the text metrics ([calculate_readability],
    [calculate_seo_score], [extract_keywords]), of the three AI-assisted
    stages, of the job pipeline [process_content_job] and of [get_stats],
    followed by the properties the specification states about them.

    Modelling conventions.
    - A Python [str] is a list of characters; a character is a code point in
      0..255 (type [ascii]), classified the way CPython classifies it.
    - A Python [float] is a binary64 number. The general statements are
      proved for the exact rational values ([Q]): arithmetic without
      rounding. Where rounding decides a statement, the function is also
      written in binary64: over [SpecFloat] to evaluate it on the input at
      hand, or with the rounding of every operation written out on the
      rationals ([round_binary64]) to prove a statement for every input.
    - A [dict] is an association list in insertion order, because
      [extract_keywords] sorts [dict.items()] with a stable sort.
    - The MongoDB collection is the list of its documents in the order a
      cursor without [sort] returns them; its writes do not fail.
    - Exceptions, the store, the clock and the log of executed stages are
      threaded by a state-and-error monad. The text-generation service is a
      function from the system message and the prompt to a reply or an
      exception. The exceptions are the instances of [Exception], which
      [except Exception] catches. *)

From Stdlib Require Import QArith Qround Qminmax Lia Lqa List Ascii String DecimalString.
From Stdlib Require Import Sorting.Sorted SpecFloat.
From stdpp Require Import base list gmap strings.

Import ListNotations.
Open Scope list_scope.

(** ** Python strings *)

Definition str := list ascii.

(** A string literal. *)
Definition lit (s : string) : str := list_ascii_of_string s.

Definition code (c : ascii) : N := N_of_ascii c.

Definition in_range (lo hi : N) (c : ascii) : bool :=
  ((lo <=? code c) && (code c <=? hi))%N.

(** [str.isspace] on one character, which is also what [str.split], [str.strip]
    and the regular expression class [\s] use. *)
Definition is_space (c : ascii) : bool :=
  in_range 9 13 c || in_range 28 32 c || (code c =? 133)%N || (code c =? 160)%N.

(** The regular expression class [\d]. *)
Definition is_digit (c : ascii) : bool := in_range 48 57 c.

(** The regular expression class [\w]: alphanumeric characters and the underscore. *)
Definition is_word (c : ascii) : bool :=
  in_range 48 57 c || in_range 65 90 c || (code c =? 95)%N || in_range 97 122 c
  || (code c =? 170)%N || in_range 178 179 c || (code c =? 181)%N
  || in_range 185 186 c || in_range 188 190 c
  || in_range 192 214 c || in_range 216 246 c || in_range 248 255 c.

(** The regular expression [.] without DOTALL: anything but a line feed. *)
Definition is_dot (c : ascii) : bool := negb (code c =? 10)%N.

(** The regular expression [.] with DOTALL. *)
Definition is_any (c : ascii) : bool := true.

(** The class [[.!?]]. *)
Definition is_terminator (c : ascii) : bool :=
  (code c =? 46)%N || (code c =? 33)%N || (code c =? 63)%N.

(** The class [[aeiouy]]. *)
Definition is_vowel (c : ascii) : bool :=
  (code c =? 97)%N || (code c =? 101)%N || (code c =? 105)%N
  || (code c =? 111)%N || (code c =? 117)%N || (code c =? 121)%N.

(** [str.lower] on one character. *)
Definition lower_char (c : ascii) : ascii :=
  if in_range 65 90 c || in_range 192 214 c || in_range 216 222 c
  then ascii_of_N (code c + 32) else c.

(** [s.lower()] *)
Definition lower (s : str) : str := map lower_char s.

(** [s[:n]] *)
Definition slice_to (n : nat) (s : str) : str := firstn n s.

Fixpoint drop_while (p : ascii -> bool) (s : str) : str :=
  match s with
  | [] => []
  | c :: t => if p c then drop_while p t else s
  end.

Fixpoint take_while (p : ascii -> bool) (s : str) : str :=
  match s with
  | [] => []
  | c :: t => if p c then c :: take_while p t else []
  end.

(** [s.strip()] *)
Definition strip (s : str) : str :=
  rev (drop_while is_space (rev (drop_while is_space s))).

(** [s.split()]: the maximal runs of characters that are not white space.
    [cur] is the word being read. *)
Fixpoint split_from (cur : str) (s : str) : list str :=
  match s with
  | [] => match cur with [] => [] | _ => [cur] end
  | c :: t =>
      if is_space c
      then match cur with [] => split_from [] t | _ => cur :: split_from [] t end
      else split_from (cur ++ [c]) t
  end.

Definition str_split (s : str) : list str := split_from [] s.

Fixpoint starts_with (p s : str) : bool :=
  match p, s with
  | [], _ => true
  | _ :: _, [] => false
  | a :: p', b :: s' => if decide (a = b) then starts_with p' s' else false
  end.

(** [needle in haystack] *)
Fixpoint contains (needle haystack : str) : bool :=
  starts_with needle haystack ||
  match haystack with
  | [] => false
  | _ :: t => contains needle t
  end.

(** [c in s] for one character. *)
Definition contains_char (c : ascii) (s : str) : bool :=
  existsb (fun d => if decide (c = d) then true else false) s.

Definition newline : ascii := ascii_of_N 10.

(** ** Regular expressions

    Each operator of a pattern is a matcher in continuation-passing style: it
    consumes a prefix of the input and hands the rest to the continuation; when
    the continuation fails it backtracks in the order [re] does (greedy
    operators give characters back one at a time, lazy ones take one more). *)

Section Regex.
Context {R : Type}.

(** A literal. *)
Fixpoint re_lit (l : str) (k : str -> option R) (s : str) : option R :=
  match l with
  | [] => k s
  | a :: l' =>
      match s with
      | b :: s' => if decide (a = b) then re_lit l' k s' else None
      | [] => None
      end
  end.

(** [p*], greedy. *)
Fixpoint re_star (p : ascii -> bool) (k : str -> option R) (s : str) : option R :=
  match s with
  | c :: t =>
      if p c
      then match re_star p k t with
           | Some r => Some r
           | None => k s
           end
      else k s
  | [] => k []
  end.

(** [p+], greedy. *)
Fixpoint re_plus (p : ascii -> bool) (k : str -> option R) (s : str) : option R :=
  match s with
  | c :: t =>
      if p c
      then match re_plus p k t with
           | Some r => Some r
           | None => k t
           end
      else None
  | [] => None
  end.

(** [(p+)], greedy, capturing; [acc] is the text captured so far. *)
Fixpoint re_plus_group (p : ascii -> bool) (k : str -> str -> option R)
    (acc : str) (s : str) : option R :=
  match s with
  | c :: t =>
      if p c
      then match re_plus_group p k (acc ++ [c]) t with
           | Some r => Some r
           | None => k (acc ++ [c]) t
           end
      else None
  | [] => None
  end.

(** [(p+?)], lazy, capturing. *)
Fixpoint re_lazy_plus_group (p : ascii -> bool) (k : str -> str -> option R)
    (acc : str) (s : str) : option R :=
  match s with
  | c :: t =>
      if p c
      then match k (acc ++ [c]) t with
           | Some r => Some r
           | None => re_lazy_plus_group p k (acc ++ [c]) t
           end
      else None
  | [] => None
  end.

(** [re.search]: the match at the leftmost position that has one. *)
Fixpoint re_search (m : str -> option R) (s : str) : option R :=
  match m s with
  | Some r => Some r
  | None =>
      match s with
      | [] => None
      | _ :: t => re_search m t
      end
  end.
End Regex.

(** [$] without MULTILINE: the end of the string, or just before a line feed
    that ends the string. *)
Definition re_at_end (s : str) : bool :=
  match s with
  | [] => true
  | [c] => if decide (c = newline) then true else false
  | _ => false
  end.

(** A match that captures one text: the captured text and the input left
    after the match. *)
Definition matcher := str -> option (str * str).

(** [re.findall] for a pattern whose matches are never empty: the captured
    text of each match, scanning from left to right and resuming after each
    match. The input left after a match is shorter than the input, so a fuel
    of its length plus one is never used up. *)
Fixpoint findall_fuel (fuel : nat) (m : matcher) (s : str) : list str :=
  match fuel with
  | O => []
  | S fuel' =>
      match m s with
      | Some (g, rest) => g :: findall_fuel fuel' m rest
      | None =>
          match s with
          | [] => []
          | _ :: t => findall_fuel fuel' m t
          end
      end
  end.

Definition re_findall (m : matcher) (s : str) : list str :=
  findall_fuel (S (length s)) m s.

(** [re.split] for a pattern without groups whose matches are never empty:
    the texts between the matches, the text before the first and the text
    after the last one included. [cur] is the piece being read. *)
Fixpoint split_fuel (fuel : nat) (m : matcher) (cur : str) (s : str) : list str :=
  match fuel with
  | O => [cur]
  | S fuel' =>
      match m s with
      | Some (_, rest) => cur :: split_fuel fuel' m [] rest
      | None =>
          match s with
          | [] => [cur]
          | c :: t => split_fuel fuel' m (cur ++ [c]) t
          end
      end
  end.

Definition re_split (m : matcher) (s : str) : list str :=
  split_fuel (S (length s)) m [] s.

(** The whole match of a pattern [[class]+]. *)
Definition re_class_plus (p : ascii -> bool) : matcher :=
  re_plus_group p (fun g rest => Some (g, rest)) [].

(** [[.!?]+] *)
Definition re_terminators : matcher := re_class_plus is_terminator.
(** [[aeiouy]+] *)
Definition re_vowels : matcher := re_class_plus is_vowel.
(** [\w+] *)
Definition re_word : matcher := re_class_plus is_word.

(** A continuation never returns more input than it was given. *)
Definition keeps_input (k : matcher) : Prop :=
  forall s g rest, k s = Some (g, rest) -> (length rest <= length s)%nat.

(** A matcher consumes at least one character. *)
Definition consumes (m : matcher) : Prop :=
  forall s g rest, m s = Some (g, rest) -> (length rest < length s)%nat.

(** ** Python numbers *)

Open Scope Q_scope.

Definition Qlt_bool (a b : Q) : bool := negb (Qle_bool b a).

(** [min(a, b)]: the first argument unless the second is smaller. *)
Definition py_min (a b : Q) : Q := if Qlt_bool b a then b else a.

(** [max(a, b)]: the first argument unless the second is larger. *)
Definition py_max (a b : Q) : Q := if Qlt_bool a b then b else a.

Definition Qnat (n : nat) : Q := inject_Z (Z.of_nat n).

(** [sum(l)] for a list of integers. *)
Definition sum_nat (l : list nat) : nat := fold_left Nat.add l 0%nat.

(** [sum(l)] for a list of floats. *)
Definition sum_Q (l : list Q) : Q := fold_left Qplus l 0.

(** [round(x, 2)] on the exact value of [x]: the nearest multiple of 0.01, a
    tie to the even one. On a float the interpreter then takes the float
    nearest to it, see [py_round2_binary64]. *)
Definition py_round2 (x : Q) : Q :=
  let y := x * 100 in
  let f := Qfloor y in
  let r := y - inject_Z f in
  let n := if Qlt_bool r (1 # 2) then f
           else if Qlt_bool (1 # 2) r then (f + 1)%Z
           else if Z.even f then f else (f + 1)%Z in
  inject_Z n / 100.

(** ** Text metrics *)

(** [calculate_readability] *)
Definition calculate_readability (text : str) : Q :=
  let words := length (str_split text) in
  let sentences := length (re_split re_terminators text) in
  let syllables :=
    sum_nat (map (fun word => length (re_findall re_vowels (lower word))) (str_split text)) in
  if (sentences =? 0)%nat || (words =? 0)%nat then 0
  else
    let score := (206835 # 1000) - (1015 # 1000) * (Qnat words / Qnat sentences)
                 - (846 # 10) * (Qnat syllables / Qnat words) in
    py_max 0 (py_min 100 score).

(** [calculate_seo_score] *)
Definition calculate_seo_score (text title : str) : Q :=
  let score := 0 in
  let words := str_split text in
  let word_count := length words in
  let score :=
    if (300 <=? word_count)%nat && (word_count <=? 2000)%nat then score + 30
    else if (2000 <? word_count)%nat then score + 20
    else score + 10 in
  let score := if contains (lower title) (lower text) then score + 20 else score in
  let score :=
    if contains_char newline text || (500 <? length text)%nat then score + 20 else score in
  let unique_words := size (list_to_set (map lower words) : gset str) in
  let score :=
    if (0 <? word_count)%nat
    then let variety := Qnat unique_words / Qnat word_count in score + variety * 30
    else score in
  py_min 100 score.

(** *** Dictionaries in insertion order *)

Definition dict (V : Type) := list (str * V).

(** [d.get(k, default)] *)
Fixpoint dict_get {V} (k : str) (default : V) (d : dict V) : V :=
  match d with
  | [] => default
  | (k', v) :: d' => if decide (k = k') then v else dict_get k default d'
  end.

(** [d[k] = v]: a present key keeps its place, a new one goes last. *)
Fixpoint dict_set {V} (k : str) (v : V) (d : dict V) : dict V :=
  match d with
  | [] => [(k, v)]
  | (k', v') :: d' => if decide (k = k') then (k, v) :: d' else (k', v') :: dict_set k v d'
  end.

(** [dict(pairs)] *)
Definition dict_of_items {V} (items : list (str * V)) : dict V :=
  fold_left (fun d kv => dict_set (fst kv) (snd kv) d) items [].

(** [sorted(l, key=key, reverse=True)]: a stable sort, so items with equal
    keys keep the order they have in [l]. [lt] is the comparison [<] of the
    keys. *)
Fixpoint insert_desc {A K} (lt : K -> K -> bool) (key : A -> K) (x : A) (l : list A)
    : list A :=
  match l with
  | [] => [x]
  | y :: t => if lt (key x) (key y) then y :: insert_desc lt key x t else x :: l
  end.

Fixpoint sorted_desc {A K} (lt : K -> K -> bool) (key : A -> K) (l : list A) : list A :=
  match l with
  | [] => []
  | x :: t => insert_desc lt key x (sorted_desc lt key t)
  end.

(** The loop [for word in words: word_freq[word] = word_freq.get(word, 0) + 1]. *)
Definition count_words (words : list str) : dict nat :=
  fold_left (fun word_freq word => dict_set word (dict_get word 0%nat word_freq + 1)%nat word_freq)
            words [].

(** [extract_keywords] *)
Definition extract_keywords (text : str) : dict Q :=
  let words :=
    map lower (List.filter (fun w => (3 <? length w)%nat) (re_findall re_word text)) in
  match words with
  | [] => []
  | _ =>
      let word_freq := count_words words in
      let total := length words in
      let densities :=
        dict_of_items (map (fun kv => (fst kv, (Qnat (snd kv) / Qnat total) * 100)) word_freq) in
      let sorted_keywords := firstn 5 (sorted_desc Qlt_bool snd densities) in
      dict_of_items sorted_keywords
  end.

(** *** Binary64

    The same function on Python's [float]: [SpecFloat] computes division,
    multiplication and addition the way IEEE 754 binary64 rounds them. It is
    used to evaluate the densities of a given text as the interpreter does. *)

(** [float(n)] *)
Definition b64_of_nat (n : nat) : spec_float :=
  binary_normalize 53 1024 (Z.of_nat n) 0 false.

Definition b64_div : spec_float -> spec_float -> spec_float := SFdiv 53 1024.
Definition b64_mul : spec_float -> spec_float -> spec_float := SFmul 53 1024.
Definition b64_add : spec_float -> spec_float -> spec_float := SFadd 53 1024.

(** The number a finite binary64 value stands for. *)
Definition b64_to_Q (x : spec_float) : Q :=
  match x with
  | S754_finite s m e => inject_Z (if s then Z.neg m else Z.pos m) * Qpower 2 e
  | _ => 0
  end.

(** [sum(l)] for a list of floats: the additions start from 0, left to right. *)
Definition sum_binary64 (l : list spec_float) : spec_float :=
  fold_left b64_add l (b64_of_nat 0).

(** [extract_keywords] in binary64. *)
Definition extract_keywords_binary64 (text : str) : dict spec_float :=
  let words :=
    map lower (List.filter (fun w => (3 <? length w)%nat) (re_findall re_word text)) in
  match words with
  | [] => []
  | _ =>
      let word_freq := count_words words in
      let total := length words in
      let densities :=
        dict_of_items
          (map (fun kv => (fst kv,
                           b64_mul (b64_div (b64_of_nat (snd kv)) (b64_of_nat total))
                                   (b64_of_nat 100)))
               word_freq) in
      let sorted_keywords := firstn 5 (sorted_desc SFltb snd densities) in
      dict_of_items sorted_keywords
  end.

(** *** Rounding to binary64

    The result of an arithmetic operation on floats is the exact result
    rounded to the nearest binary64 number, a tie going to the one with the
    even significand. [round_binary64] writes that rounding out on the
    rationals: 53 significant bits, the least exponent -1074. It leaves
    overflow out: the scores are computed from counts of words and
    characters, whose quotients and sums are far below 2^1024. With it the
    two scores are written the way the interpreter computes them, every
    operation rounded, which decides what [round(score, 2)] stores. *)

(** The integer nearest to [y], a tie going to the even one. *)
Definition round_half_even (y : Q) : Z :=
  let f := Qfloor y in
  let r := y - inject_Z f in
  if Qlt_bool r (1 # 2) then f
  else if Qlt_bool (1 # 2) r then (f + 1)%Z
  else if Z.even f then f else (f + 1)%Z.

(** [2 ^ e] for an exponent of either sign. *)
Definition pow2 (e : Z) : Q :=
  if (0 <=? e)%Z then inject_Z (2 ^ e) else 1 / inject_Z (2 ^ (- e)).

Definition Qmagnitude (x : Q) : Q := if Qlt_bool x 0 then - x else x.

(** The exponent of the leading bit of a positive rational: the difference
    of the bit lengths of numerator and denominator, or one less. *)
Definition Qlog2 (x : Q) : Z :=
  let e := (Z.log2 (Qnum x) - Z.log2 (Zpos (Qden x)))%Z in
  if Qle_bool (pow2 e) x then e else (e - 1)%Z.

(** The binary64 number nearest to [x]: the multiple of the unit in the last
    place of [x] nearest to it. *)
Definition round_binary64 (x : Q) : Q :=
  if Qeq_bool x 0 then 0
  else
    let e := Z.max (Qlog2 (Qmagnitude x) - 52) (-1074) in
    Qred (inject_Z (round_half_even (x / pow2 e)) * pow2 e).

Definition float_add (x y : Q) : Q := round_binary64 (x + y).
Definition float_sub (x y : Q) : Q := round_binary64 (x - y).
Definition float_mul (x y : Q) : Q := round_binary64 (x * y).
(** [x / y], also for two integers: true division rounds the exact quotient. *)
Definition float_div (x y : Q) : Q := round_binary64 (x / y).
(** A decimal literal of the source. *)
Definition float_lit (x : Q) : Q := round_binary64 x.

(** [round(x, 2)] on a float: the decimal nearest to the exact value of [x],
    a tie going to the even one, and then the float nearest to that decimal. *)
Definition py_round2_binary64 (x : Q) : Q := round_binary64 (py_round2 x).

(** [calculate_readability] in binary64. *)
Definition calculate_readability_binary64 (text : str) : Q :=
  let words := length (str_split text) in
  let sentences := length (re_split re_terminators text) in
  let syllables :=
    sum_nat (map (fun word => length (re_findall re_vowels (lower word))) (str_split text)) in
  if (sentences =? 0)%nat || (words =? 0)%nat then 0
  else
    let score :=
      float_sub
        (float_sub (float_lit (206835 # 1000))
           (float_mul (float_lit (1015 # 1000)) (float_div (Qnat words) (Qnat sentences))))
        (float_mul (float_lit (846 # 10)) (float_div (Qnat syllables) (Qnat words))) in
    py_max 0 (py_min 100 score).

(** [calculate_seo_score] in binary64. *)
Definition calculate_seo_score_binary64 (text title : str) : Q :=
  let score := 0 in
  let words := str_split text in
  let word_count := length words in
  let score :=
    if (300 <=? word_count)%nat && (word_count <=? 2000)%nat then float_add score 30
    else if (2000 <? word_count)%nat then float_add score 20
    else float_add score 10 in
  let score := if contains (lower title) (lower text) then float_add score 20 else score in
  let score :=
    if contains_char newline text || (500 <? length text)%nat
    then float_add score 20 else score in
  let unique_words := size (list_to_set (map lower words) : gset str) in
  let score :=
    if (0 <? word_count)%nat
    then let variety := float_div (Qnat unique_words) (Qnat word_count) in
         float_add score (float_mul variety 30)
    else score in
  py_min 100 score.

(** ** Data model *)

Record ContentInput := {
  title : str;
  content : str;
  content_type : str
}.

Record AnalysisResult := {
  readability_score : Q;
  seo_score : Q;
  tone : str;
  keyword_density : dict Q;
  word_count : nat;
  sentence_count : nat;
  suggestions : list str
}.

Record OptimizationResult := {
  optimized_content : str;
  improvements : list str
}.

Record VariantResult := {
  variant_a : str;
  variant_b : str;
  differences : list str
}.

Inductive Status := processing | completed | failed.

Global Instance Status_eq_dec : EqDecision Status.
Proof. solve_decision. Defined.

(** A document of the collection [content_jobs]. Time stamps are clock ticks. *)
Record ContentJob := {
  job_id : str;
  job_title : str;
  original_content : str;
  job_content_type : str;
  status : Status;
  analysis : option AnalysisResult;
  optimization : option OptimizationResult;
  variants : option VariantResult;
  created_at : nat;
  completed_at : option nat;
  job_error : option str
}.

(** ** Exceptions, the store and the clock *)

(** The exceptions the code handles: the instances of [Exception]. An error
    that is a [BaseException] only, such as the cancellation of the task,
    passes every [except Exception] of the code and is not part of the model:
    what is proved of a run is proved of the runs in which every call of the
    service ends with a reply or with an [Exception]. *)
Inductive Exn :=
  | Exception (msg : str)
  | HTTPException (status_code : nat) (detail : str).

(** [str(e)]. For an [HTTPException] it is Starlette's
    [f"{self.status_code}: {self.detail}"]. *)
Definition exn_str (e : Exn) : str :=
  match e with
  | Exception msg => msg
  | HTTPException status_code detail =>
      lit (NilZero.string_of_uint (Nat.to_uint status_code)) ++ lit ": " ++ detail
  end.

Inductive Stage := Analyze | Optimize | Vary.

(** The state the pipeline runs in. [stages_run] and [history] are ghost
    fields: the stages entered so far, oldest first, and the state of the
    collection after each write, oldest first. *)
Record World := {
  content_jobs : list ContentJob;
  clock : nat;
  stages_run : list Stage;
  history : list (list ContentJob)
}.

Definition M (A : Type) : Type := World -> (Exn + A) * World.

Definition ret {A} (a : A) : M A := fun w => (inr a, w).

Definition bind {A B} (m : M A) (k : A -> M B) : M B :=
  fun w =>
    match m w with
    | (inr a, w') => k a w'
    | (inl e, w') => (inl e, w')
    end.

Definition raise {A} (e : Exn) : M A := fun w => (inl e, w).

(** [try: body  except Exception as e: handler e]; every [Exn] is an
    [Exception], so the handler takes them all. *)
Definition try_except {A} (body : M A) (handler : Exn -> M A) : M A :=
  fun w =>
    match body w with
    | (inr a, w') => (inr a, w')
    | (inl e, w') => handler e w'
    end.

Notation "x <- m ;; k" := (bind m (fun x => k))
  (at level 100, m at next level, right associativity).
Notation "m >> k" := (bind m (fun _ => k))
  (at level 100, right associativity).

(** The world after one more reading of the clock. *)
Definition tick (w : World) : World :=
  {| content_jobs := content_jobs w; clock := S (clock w);
     stages_run := stages_run w; history := history w |}.

(** The world once stage [s] has been entered. *)
Definition entered (s : Stage) (w : World) : World :=
  {| content_jobs := content_jobs w; clock := clock w;
     stages_run := stages_run w ++ [s]; history := history w |}.

(** The world after a write that leaves the collection as [docs]. *)
Definition written (docs : list ContentJob) (w : World) : World :=
  {| content_jobs := docs; clock := clock w;
     stages_run := stages_run w; history := history w ++ [docs] |}.

(** [datetime.now(timezone.utc)]: two readings never return the same tick. *)
Definition utcnow : M nat := fun w => (inr (clock w), tick w).

Definition enter_stage (s : Stage) : M unit := fun w => (inr tt, entered s w).

(** [$set] applied to the first document whose [id] is [i]. *)
Fixpoint update_first (i : str) (set : ContentJob -> ContentJob)
    (docs : list ContentJob) : list ContentJob :=
  match docs with
  | [] => []
  | j :: docs' =>
      if decide (job_id j = i) then set j :: docs' else j :: update_first i set docs'
  end.

(** [db.content_jobs.update_one({"id": i}, {"$set": ...})] *)
Definition update_one (i : str) (set : ContentJob -> ContentJob) : M unit :=
  fun w => (inr tt, written (update_first i set (content_jobs w)) w).

(** [db.content_jobs.insert_one(doc)] *)
Definition insert_one (doc : ContentJob) : M unit :=
  fun w => (inr tt, written (content_jobs w ++ [doc]) w).

(** [db.content_jobs.find_one({"id": i})] *)
Fixpoint find_one (i : str) (docs : list ContentJob) : option ContentJob :=
  match docs with
  | [] => None
  | j :: docs' => if decide (job_id j = i) then Some j else find_one i docs'
  end.

Definition set_analysis (a : AnalysisResult) (j : ContentJob) : ContentJob :=
  {| job_id := job_id j; job_title := job_title j;
     original_content := original_content j; job_content_type := job_content_type j;
     status := status j; analysis := Some a; optimization := optimization j;
     variants := variants j; created_at := created_at j;
     completed_at := completed_at j; job_error := job_error j |}.

Definition set_optimization (o : OptimizationResult) (j : ContentJob) : ContentJob :=
  {| job_id := job_id j; job_title := job_title j;
     original_content := original_content j; job_content_type := job_content_type j;
     status := status j; analysis := analysis j; optimization := Some o;
     variants := variants j; created_at := created_at j;
     completed_at := completed_at j; job_error := job_error j |}.

Definition set_completed (v : VariantResult) (t : nat) (j : ContentJob) : ContentJob :=
  {| job_id := job_id j; job_title := job_title j;
     original_content := original_content j; job_content_type := job_content_type j;
     status := completed; analysis := analysis j; optimization := optimization j;
     variants := Some v; created_at := created_at j;
     completed_at := Some t; job_error := job_error j |}.

Definition set_failed (e : str) (t : nat) (j : ContentJob) : ContentJob :=
  {| job_id := job_id j; job_title := job_title j;
     original_content := original_content j; job_content_type := job_content_type j;
     status := failed; analysis := analysis j; optimization := optimization j;
     variants := variants j; created_at := created_at j;
     completed_at := Some t; job_error := Some e |}.

(** ** The three stages and the pipeline *)

Definition nl : str := [newline].

(** [\d+\.\s*(.+)], as [re.findall] uses it: the captured group. *)
Definition re_numbered : matcher :=
  re_plus is_digit
    (re_lit (lit ".")
       (re_star is_space
          (re_plus_group is_dot (fun g rest => Some (g, rest)) []))).

(** [TONE:\s*(.+)], group 1. *)
Definition re_tone : str -> option str :=
  re_lit (lit "TONE:")
    (re_star is_space
       (re_plus_group is_dot (fun g _ => Some g) [])).

(** [VARIANT_A:\s*(.+?)(?=VARIANT_B:|$)] with DOTALL, group 1. *)
Definition re_variant_a : str -> option str :=
  re_lit (lit "VARIANT_A:")
    (re_star is_space
       (re_lazy_plus_group is_any
          (fun g rest =>
             if starts_with (lit "VARIANT_B:") rest || re_at_end rest
             then Some g else None) [])).

(** [VARIANT_B:\s*(.+?)$] with DOTALL, group 1. *)
Definition re_variant_b : str -> option str :=
  re_lit (lit "VARIANT_B:")
    (re_star is_space
       (re_lazy_plus_group is_any
          (fun g rest => if re_at_end rest then Some g else None) [])).

Definition analysis_system_message : str :=
  lit "You are a content analysis expert. Provide concise, actionable feedback.".
Definition optimize_system_message : str :=
  lit "You are a content optimization expert specializing in SEO, readability, and engagement.".
Definition variants_system_message : str :=
  lit "You are an A/B testing expert. Create distinct content variants for testing.".

Definition analysis_prompt (content_type title content : str) : str :=
  lit "Analyze this " ++ content_type ++ lit " content:" ++ nl ++ nl
  ++ lit "Title: " ++ title ++ nl
  ++ lit "Content: " ++ slice_to 500 content ++ lit "..." ++ nl ++ nl
  ++ lit "Provide:" ++ nl
  ++ lit "1. Primary tone (in 2-3 words: e.g., 'Professional and Informative', "
  ++ lit "'Casual and Engaging')" ++ nl
  ++ lit "2. Three specific improvement suggestions (each under 15 words)" ++ nl ++ nl
  ++ lit "Format your response as:" ++ nl
  ++ lit "TONE: [tone]" ++ nl
  ++ lit "SUGGESTIONS:" ++ nl
  ++ lit "1. [suggestion 1]" ++ nl
  ++ lit "2. [suggestion 2]" ++ nl
  ++ lit "3. [suggestion 3]".

Definition variants_prompt (content_type title optimized : str) : str :=
  lit "Create 2 distinct variants of this " ++ content_type ++ lit " for A/B testing:" ++ nl ++ nl
  ++ lit "Title: " ++ title ++ nl
  ++ lit "Optimized Content:" ++ nl
  ++ optimized ++ nl ++ nl
  ++ lit "Create:" ++ nl
  ++ lit "VARIANT A: Focus on emotional appeal and storytelling" ++ nl
  ++ lit "VARIANT B: Focus on data, facts, and authority" ++ nl ++ nl
  ++ lit "Format:" ++ nl
  ++ lit "VARIANT_A:" ++ nl
  ++ lit "[content]" ++ nl ++ nl
  ++ lit "VARIANT_B:" ++ nl
  ++ lit "[content]".

(** The suggestions used when the response has no numbered line. *)
Definition default_suggestions : list str :=
  [lit "Improve clarity"; lit "Enhance engagement"; lit "Optimize structure"].

(** The suggestions used when the call to the service raises. *)
Definition failure_suggestions : list str :=
  [lit "Improve readability"; lit "Enhance SEO"; lit "Strengthen engagement"].

(** The parsing of the response in [analyze_content_with_ai]:
    [suggestions[:3] if suggestions else [...]] on the numbered lines. *)
Definition parse_suggestions (response : str) : list str :=
  let suggestions := re_findall re_numbered response in
  match suggestions with
  | [] => default_suggestions
  | _ => firstn 3 suggestions
  end.

Definition parse_tone (response : str) : str :=
  let tone_match := re_search re_tone response in
  match tone_match with
  | Some g => strip g
  | None => lit "Neutral"
  end.

Section Pipeline.
(** [LlmChat(system_message=...).send_message(UserMessage(text=prompt))]:
    the text the service returns, or the exception it raises. The session
    identifier, fresh for every call, is not part of the model. *)
Variable send_message : str -> str -> Exn + str.

(** How an f-string prints a float. *)
Variable float_repr : Q -> str.

Definition chat (system_message prompt : str) : M str :=
  fun w => (send_message system_message prompt, w).

Definition optimize_prompt (content_type title content : str)
    (analysis : AnalysisResult) : str :=
  lit "Optimize this " ++ content_type ++ lit ":" ++ nl ++ nl
  ++ lit "Title: " ++ title ++ nl
  ++ lit "Original Content:" ++ nl
  ++ content ++ nl ++ nl
  ++ lit "Current Metrics:" ++ nl
  ++ lit "- Readability Score: " ++ float_repr (readability_score analysis) ++ lit "/100" ++ nl
  ++ lit "- SEO Score: " ++ float_repr (seo_score analysis) ++ lit "/100" ++ nl
  ++ lit "- Tone: " ++ tone analysis ++ nl ++ nl
  ++ lit "Improve the content for better readability, SEO, and engagement. "
  ++ lit "Keep the core message but make it more compelling and optimized. "
  ++ lit "Return ONLY the optimized content, no explanations.".

(** [analyze_content_with_ai] *)
Definition analyze_content_with_ai (content title content_type : str)
    : M AnalysisResult :=
  enter_stage Analyze >>
  let readability := calculate_readability content in
  let seo_score := calculate_seo_score content title in
  let keywords := extract_keywords content in
  let word_count := length (str_split content) in
  let sentence_count := length (re_split re_terminators content) in
  let prompt := analysis_prompt content_type title content in
  r <- try_except
         (response <- chat analysis_system_message prompt ;;
          let tone := parse_tone response in
          let suggestions := parse_suggestions response in
          ret (tone, suggestions))
         (fun e => ret (lit "Unable to analyze", failure_suggestions)) ;;
  ret {| readability_score := py_round2 readability;
         seo_score := py_round2 seo_score;
         tone := fst r;
         keyword_density := keywords;
         word_count := word_count;
         sentence_count := sentence_count;
         suggestions := snd r |}.

(** [optimize_content_with_ai] *)
Definition optimize_content_with_ai (content title : str)
    (analysis : AnalysisResult) (content_type : str) : M OptimizationResult :=
  enter_stage Optimize >>
  let prompt := optimize_prompt content_type title content analysis in
  try_except
    (optimized <- chat optimize_system_message prompt ;;
     let improvements :=
       [lit "Enhanced readability and flow";
        lit "Improved SEO keyword integration";
        lit "Strengthened engagement and clarity";
        lit "Optimized structure and formatting"] in
     ret {| optimized_content := strip optimized; improvements := improvements |})
    (fun e => raise (HTTPException 500 (lit "Optimization failed: " ++ exn_str e))).

(** [generate_variants_with_ai] *)
Definition generate_variants_with_ai (optimized_content title content_type : str)
    : M VariantResult :=
  enter_stage Vary >>
  let prompt := variants_prompt content_type title optimized_content in
  try_except
    (response <- chat variants_system_message prompt ;;
     let variant_a_match := re_search re_variant_a response in
     let variant_b_match := re_search re_variant_b response in
     let variant_a :=
       match variant_a_match with Some g => strip g | None => optimized_content end in
     let variant_b :=
       match variant_b_match with Some g => strip g | None => optimized_content end in
     let differences :=
       [lit "Variant A: Emotional and narrative-driven approach";
        lit "Variant B: Data-focused and authoritative tone";
        lit "Both optimized for different audience segments"] in
     ret {| variant_a := variant_a; variant_b := variant_b; differences := differences |})
    (fun e => raise (HTTPException 500 (lit "Variant generation failed: " ++ exn_str e))).

(** [process_content_job] *)
Definition process_content_job (job_id : str) (content_input : ContentInput) : M unit :=
  try_except
    (analysis <- analyze_content_with_ai
                   (content content_input) (title content_input)
                   (content_type content_input) ;;
     update_one job_id (set_analysis analysis) >>
     optimization <- optimize_content_with_ai
                       (content content_input) (title content_input)
                       analysis (content_type content_input) ;;
     update_one job_id (set_optimization optimization) >>
     variants <- generate_variants_with_ai
                   (optimized_content optimization) (title content_input)
                   (content_type content_input) ;;
     now <- utcnow ;;
     update_one job_id (set_completed variants now))
    (fun e =>
       now <- utcnow ;;
       update_one job_id (set_failed (exn_str e) now)).

(** [submit_content]; [new_id] is the identifier [uuid.uuid4()] draws.
    The background task is [process_content_job new_id content_input]. *)
Definition submit_content (new_id : str) (content_input : ContentInput) : M (str * Status) :=
  now <- utcnow ;;
  let job :=
    {| job_id := new_id; job_title := title content_input;
       original_content := content content_input;
       job_content_type := content_type content_input;
       status := processing; analysis := None; optimization := None;
       variants := None; created_at := now; completed_at := None;
       job_error := None |} in
  insert_one job >>
  ret (new_id, processing).
End Pipeline.

(** ** Statistics *)

Record Stats := {
  total_jobs : nat;
  completed_jobs : nat;
  processing_jobs : nat;
  failed_jobs : nat;
  avg_readability_score : Q;
  avg_seo_score : Q
}.

Definition status_is (s : Status) (j : ContentJob) : bool :=
  if decide (status j = s) then true else false.

(** [db.content_jobs.count_documents(query)] *)
Definition count_documents (query : ContentJob -> bool) (docs : list ContentJob) : nat :=
  length (List.filter query docs).

(** [[job['analysis'][field] for job in jobs if job.get('analysis')]] *)
Fixpoint analysis_scores (field : AnalysisResult -> Q) (jobs : list ContentJob) : list Q :=
  match jobs with
  | [] => []
  | job :: jobs' =>
      match analysis job with
      | Some a => field a :: analysis_scores field jobs'
      | None => analysis_scores field jobs'
      end
  end.

(** [get_stats], on the documents of the collection in cursor order. *)
Definition get_stats (docs : list ContentJob) : Stats :=
  let total := count_documents (fun _ => true) docs in
  let n_completed := count_documents (status_is completed) docs in
  let n_processing := count_documents (status_is processing) docs in
  let n_failed := count_documents (status_is failed) docs in
  let completed_docs := firstn 100 (List.filter (status_is completed) docs) in
  let avg_readability := 0 in
  let avg_seo := 0 in
  let avgs :=
    match completed_docs with
    | [] => (avg_readability, avg_seo)
    | _ =>
        let readability_scores := analysis_scores readability_score completed_docs in
        let seo_scores := analysis_scores seo_score completed_docs in
        (match readability_scores with
         | [] => 0
         | _ => sum_Q readability_scores / Qnat (length readability_scores)
         end,
         match seo_scores with
         | [] => 0
         | _ => sum_Q seo_scores / Qnat (length seo_scores)
         end)
    end in
  {| total_jobs := total;
     completed_jobs := n_completed;
     processing_jobs := n_processing;
     failed_jobs := n_failed;
     avg_readability_score := py_round2 (fst avgs);
     avg_seo_score := py_round2 (snd avgs) |}.

(** ** Notions the specification uses *)

(** The number of maximal runs of characters of a class: a run ends at a
    character of the class that is not followed by one. *)
Fixpoint count_runs (p : ascii -> bool) (s : str) : nat :=
  match s with
  | [] => 0
  | c :: t =>
      let ends := p c && negb (match t with d :: _ => p d | [] => false end) in
      if ends then S (count_runs p t) else count_runs p t
  end.

Definition not_space (c : ascii) : bool := negb (is_space c).

(** A vowel whatever its case. *)
Definition is_vowel_ci (c : ascii) : bool := is_vowel (lower_char c).

(** The words of a text: the whitespace-delimited runs. *)
Definition spec_word_count (text : str) : nat := count_runs not_space text.

Definition spec_syllables (text : str) : nat :=
  sum_nat (map (count_runs is_vowel_ci) (str_split text)).

Definition clamp (lo hi x : Q) : Q :=
  if Qlt_bool x lo then lo else if Qlt_bool hi x then hi else x.

Definition flesch (words sentences syllables : nat) : Q :=
  (206835 # 1000) - (1015 # 1000) * (Qnat words / Qnat sentences)
  - (846 # 10) * (Qnat syllables / Qnat words).

(** The SEO score the way the specification words it. *)
Definition seo_length_points (n : nat) : Q :=
  if (300 <=? n)%nat && (n <=? 2000)%nat then 30
  else if (2000 <? n)%nat then 20 else 10.

Definition seo_title_points (text title : str) : Q :=
  if contains (lower title) (lower text) then 20 else 0.

Definition seo_structure_points (text : str) : Q :=
  if contains_char newline text || (500 <? length text)%nat then 20 else 0.

Definition seo_variety_points (text : str) : Q :=
  let words := str_split text in
  match words with
  | [] => 0
  | _ => 30 * (Qnat (length (remove_dups (map lower words))) / Qnat (length words))
  end.

Definition seo_score_spec (text title : str) : Q :=
  Qmin 100 (seo_length_points (spec_word_count text) + seo_title_points text title
            + seo_structure_points text + seo_variety_points text).

(** *** The SEO score, term by term

    The terms of the score the way the specification words them, written
    without the helpers of the code: case is ignored by comparing letters
    and not by lower-casing, the words are read off the text directly, and
    the share of distinct words is a fraction of two counts. *)













(** The tokens [extract_keywords] counts. *)
Definition keyword_tokens (text : str) : list str :=
  map lower (List.filter (fun w => (3 <? length w)%nat) (re_findall re_word text)).

(** The position at which a token is first met. *)
Fixpoint first_index (k : str) (l : list str) : nat :=
  match l with
  | [] => 0
  | x :: t => if decide (k = x) then 0 else S (first_index k t)
  end.

(** The number of occurrences of a token. *)
Definition occurrences (k : str) (l : list str) : nat :=
  length (List.filter (fun x => if decide (k = x) then true else false) l).

(** The density of a token, in per cent. *)
Definition density (k : str) (tokens : list str) : Q :=
  100 * Qnat (occurrences k tokens) / Qnat (length tokens).

(** [k1] ranks before [k2]: a higher density, or the same density and met first. *)
Definition ranks_before (tokens : list str) (e1 e2 : str * Q) : Prop :=
  snd e2 < snd e1 \/
  (snd e1 == snd e2 /\ (first_index (fst e1) tokens < first_index (fst e2) tokens)%nat).

(** The density of every distinct token, in the order in which the tokens
    are first met. *)
Definition density_table (tokens : list str) : dict Q :=
  map (fun kv => (fst kv, (Qnat (snd kv) / Qnat (length tokens)) * 100)) (count_words tokens).

(** *** The results of the stages, given what the service replies *)

(** What [analyze_content_with_ai] returns when the service replies [reply]. *)
Definition analysis_value (reply : Exn + str) (content title : str) : AnalysisResult :=
  {| readability_score := py_round2 (calculate_readability content);
     seo_score := py_round2 (calculate_seo_score content title);
     tone := match reply with
             | inr response => parse_tone response
             | inl _ => lit "Unable to analyze"
             end;
     keyword_density := extract_keywords content;
     word_count := length (str_split content);
     sentence_count := length (re_split re_terminators content);
     suggestions := match reply with
                    | inr response => parse_suggestions response
                    | inl _ => failure_suggestions
                    end |}.

Definition analysis_reply (send_message : str -> str -> Exn + str)
    (content_input : ContentInput) : Exn + str :=
  send_message analysis_system_message
    (analysis_prompt (content_type content_input) (title content_input)
                     (content content_input)).

(** The analysis the pipeline stores for an input. *)
Definition analysis_of (send_message : str -> str -> Exn + str)
    (content_input : ContentInput) : AnalysisResult :=
  analysis_value (analysis_reply send_message content_input)
                 (content content_input) (title content_input).

(** What the service replies to the call of the optimize stage. *)
Definition optimize_reply (send_message : str -> str -> Exn + str)
    (float_repr : Q -> str) (content_input : ContentInput) : Exn + str :=
  send_message optimize_system_message
    (optimize_prompt float_repr (content_type content_input) (title content_input)
                     (content content_input) (analysis_of send_message content_input)).

(** What the service replies to the call of the vary stage. *)
Definition variants_reply (send_message : str -> str -> Exn + str)
    (content_input : ContentInput) (optimized : str) : Exn + str :=
  send_message variants_system_message
    (variants_prompt (content_type content_input) (title content_input) optimized).

(** What [optimize_content_with_ai] returns when the service replies [optimized]. *)
Definition optimization_value (optimized : str) : OptimizationResult :=
  {| optimized_content := strip optimized;
     improvements :=
       [lit "Enhanced readability and flow";
        lit "Improved SEO keyword integration";
        lit "Strengthened engagement and clarity";
        lit "Optimized structure and formatting"] |}.

(** What [generate_variants_with_ai] returns when the service replies [response]. *)
Definition variants_value (optimized_content response : str) : VariantResult :=
  {| variant_a := match re_search re_variant_a response with
                  | Some g => strip g
                  | None => optimized_content
                  end;
     variant_b := match re_search re_variant_b response with
                  | Some g => strip g
                  | None => optimized_content
                  end;
     differences :=
       [lit "Variant A: Emotional and narrative-driven approach";
        lit "Variant B: Data-focused and authoritative tone";
        lit "Both optimized for different audience segments"] |}.

(** The states the collection went through from world [w] to world [w'],
    oldest first, and the stages entered in between. *)
Definition trace_of (w w' : World) : list (list ContentJob) :=
  skipn (length (history w)) (history w').

Definition stages_of (w w' : World) : list Stage :=
  skipn (length (stages_run w)) (stages_run w').

(** The error [optimize_content_with_ai] raises when the service raises [e]. *)
Definition optimization_failed (e : Exn) : Exn :=
  HTTPException 500 (lit "Optimization failed: " ++ exn_str e).

(** The error [generate_variants_with_ai] raises when the service raises [e]. *)
Definition variants_failed (e : Exn) : Exn :=
  HTTPException 500 (lit "Variant generation failed: " ++ exn_str e).

(** *** Worlds and services to run the pipeline on *)

Definition initial_world : World :=
  {| content_jobs := []; clock := 0; stages_run := []; history := [] |}.

(** A service that is down. *)
Definition service_down : str -> str -> Exn + str :=
  fun _ _ => inl (Exception (lit "connection refused")).

(** A service that echoes the prompt. *)
Definition service_echo : str -> str -> Exn + str :=
  fun _ prompt => inr prompt.

(** A service that answers the analysis and raises on every other call. *)
Definition service_analysis_only : str -> str -> Exn + str :=
  fun system_message _ =>
    if decide (system_message = analysis_system_message)
    then inr (lit "TONE: Calm") else inl (Exception (lit "rate limited")).

(** A service that replies with a fixed text. *)
Definition service_const (reply : str) : str -> str -> Exn + str :=
  fun _ _ => inr reply.

(** A printer of floats that prints the integer part. *)
Definition repr_floor (x : Q) : str :=
  lit (NilZero.string_of_int (Z.to_int (Qfloor x))).

Definition job1 : str := lit "job-1".

Definition example_input : ContentInput :=
  {| title := lit "Hello World";
     content := lit "Hello world. This is great!";
     content_type := lit "article" |}.

(** The world in which the example input has just been submitted as [job1]. *)
Definition submitted_world : World :=
  snd (submit_content job1 example_input initial_world).

(** The order a stable descending sort produces from a list in the order
    [R]: higher key first; among equal keys, the order [R]. *)
Definition key_then {A} (key : A -> Q) (R : A -> A -> Prop) (x y : A) : Prop :=
  key y < key x \/ (key x == key y /\ R x y).

(** The document [submit_content] stored for [job1]. *)
Definition submitted_job : ContentJob :=
  {| job_id := job1; job_title := title example_input;
     original_content := content example_input;
     job_content_type := content_type example_input;
     status := processing; analysis := None; optimization := None;
     variants := None; created_at := 0; completed_at := None;
     job_error := None |}.

(** A text with nine qualifying tokens: one seven times, two once. *)
Definition skewed_text : str := lit "data data data data data data data more test".

(** A reply with one numbered line, and one with four. *)
Definition reply_one_line : str :=
  lit "TONE: Calm" ++ nl ++ lit "SUGGESTIONS:" ++ nl ++ lit "1. Shorten the introduction".

Definition reply_four_lines : str :=
  lit "TONE: Calm" ++ nl ++ lit "SUGGESTIONS:" ++ nl
  ++ lit "1. One" ++ nl ++ lit "2. Two" ++ nl ++ lit "3. Three" ++ nl ++ lit "4. Four".

(** A completed job created at tick [n] whose two scores are [score]. *)
Definition scored_job (n : nat) (score : Q) : ContentJob :=
  {| job_id := lit (NilZero.string_of_uint (Nat.to_uint n));
     job_title := []; original_content := []; job_content_type := lit "article";
     status := completed;
     analysis := Some {| readability_score := score; seo_score := score;
                         tone := lit "Neutral"; keyword_density := [];
                         word_count := 0; sentence_count := 1;
                         suggestions := default_suggestions |};
     optimization := Some (optimization_value []);
     variants := Some (variants_value [] []);
     created_at := n; completed_at := Some (S n); job_error := None |}.

(** A collection of 101 completed jobs in the order of their creation: the
    oldest scores 100, the 100 newer ones score 0. *)
Definition old_first_store : list ContentJob :=
  scored_job 0 100 :: map (fun n => scored_job n 0) (seq 1 100).

(** The mean of a list of scores, 0 for the empty list. *)
Definition mean (l : list Q) : Q :=
  match l with
  | [] => 0
  | _ => sum_Q l / Qnat (length l)
  end.

(** The [n] most recently created documents, newest first. *)
Definition most_recent (n : nat) (docs : list ContentJob) : list ContentJob :=
  firstn n (sorted_desc Nat.ltb created_at docs).

(** The statistics the way the specification words them: the averages are
    taken over the 100 most recent completed jobs. *)
Definition stats_most_recent (docs : list ContentJob) : Stats :=
  let sample := most_recent 100 (List.filter (status_is completed) docs) in
  {| total_jobs := length docs;
     completed_jobs := count_documents (status_is completed) docs;
     processing_jobs := count_documents (status_is processing) docs;
     failed_jobs := count_documents (status_is failed) docs;
     avg_readability_score := py_round2 (mean (analysis_scores readability_score sample));
     avg_seo_score := py_round2 (mean (analysis_scores seo_score sample)) |}.

(** The statistics over the first 100 completed jobs in cursor order. *)
Definition stats_cursor_order (docs : list ContentJob) : Stats :=
  let sample := firstn 100 (List.filter (status_is completed) docs) in
  {| total_jobs := length docs;
     completed_jobs := count_documents (status_is completed) docs;
     processing_jobs := count_documents (status_is processing) docs;
     failed_jobs := count_documents (status_is failed) docs;
     avg_readability_score := py_round2 (mean (analysis_scores readability_score sample));
     avg_seo_score := py_round2 (mean (analysis_scores seo_score sample)) |}.

(** The job as [submit_content] stores it. *)
Definition fresh_job (j : ContentJob) : Prop :=
  status j = processing /\ analysis j = None /\ optimization j = None /\
  variants j = None /\ completed_at j = None /\ job_error j = None.

(** Each result field present implies the fields left of it in the order
    analysis, optimization, variants; a completed job has all three. *)
Definition fields_in_order (j : ContentJob) : Prop :=
  (is_Some (optimization j) -> is_Some (analysis j)) /\
  (is_Some (variants j) -> is_Some (optimization j)) /\
  (status j = completed ->
   is_Some (analysis j) /\ is_Some (optimization j) /\ is_Some (variants j)).

(** What a snapshot of the collection shows of a job: which result fields
    are set, and the status. *)
Definition job_shape (i : str) (docs : list ContentJob)
    : option (bool * bool * bool * Status) :=
  match find_one i docs with
  | Some j =>
      Some (bool_decide (is_Some (analysis j)), bool_decide (is_Some (optimization j)),
            bool_decide (is_Some (variants j)), status j)
  | None => None
  end.

(** ** The other routes

    Time stamps are clock ticks, so the conversions between ISO strings and
    [datetime] that [get_job_status] and [get_all_jobs] perform are left out. *)

(** [db.content_jobs.find_one({"id": i}, {"_id": 0})] *)
Definition find_one_doc (i : str) : M (option ContentJob) :=
  fun w => (inr (find_one i (content_jobs w)), w).

(** [get_job_status] *)
Definition get_job_status (job_id : str) : M ContentJob :=
  job <- find_one_doc job_id ;;
  match job with
  | None => raise (HTTPException 404 (lit "Job not found"))
  | Some job => ret job
  end.

(** The collection without the first document whose [id] is [i]. *)
Fixpoint delete_first (i : str) (docs : list ContentJob) : list ContentJob :=
  match docs with
  | [] => []
  | j :: docs' => if decide (job_id j = i) then docs' else j :: delete_first i docs'
  end.

(** [db.content_jobs.delete_one({"id": i})], returning [deleted_count]. *)
Definition delete_one (i : str) : M nat :=
  fun w =>
    (inr (match find_one i (content_jobs w) with Some _ => 1%nat | None => 0%nat end),
     written (delete_first i (content_jobs w)) w).

(** [delete_job], returning the message of the response. *)
Definition delete_job (job_id : str) : M str :=
  deleted_count <- delete_one job_id ;;
  if (deleted_count =? 0)%nat
  then raise (HTTPException 404 (lit "Job not found"))
  else ret (lit "Job deleted successfully").

(** [get_all_jobs]: [find({}).sort("created_at", -1).limit(limit).to_list(limit)]
    for a limit that is not negative. Documents with the same time stamp,
    whose order the store leaves open, are kept in cursor order. *)
Definition get_all_jobs (limit : nat) : M (list ContentJob) :=
  fun w => (inr (firstn limit (sorted_desc Nat.ltb created_at (content_jobs w))), w).

(** The documents of a collection whose [id] is [i]. *)
Definition docs_with_id (i : str) (docs : list ContentJob) : list ContentJob :=
  List.filter (fun j => if decide (job_id j = i) then true else false) docs.

(** A collection of two jobs, the newer one first. *)
Definition two_jobs : list ContentJob := [scored_job 2 50; scored_job 1 70].

Definition two_jobs_world : World :=
  {| content_jobs := two_jobs; clock := 3; stages_run := []; history := [] |}.

(** What a run of the pipeline that reads the clock at tick [t] does, in all,
    to the document of its job. *)
Definition final_update (send_message : str -> str -> Exn + str)
    (float_repr : Q -> str) (ci : ContentInput) (t : nat) (j : ContentJob) : ContentJob :=
  let with_analysis := set_analysis (analysis_of send_message ci) j in
  match optimize_reply send_message float_repr ci with
  | inl e => set_failed (exn_str (optimization_failed e)) t with_analysis
  | inr o =>
      let with_optimization := set_optimization (optimization_value o) with_analysis in
      match variants_reply send_message ci (strip o) with
      | inl e => set_failed (exn_str (variants_failed e)) t with_optimization
      | inr response =>
          set_completed (variants_value (strip o) response) t with_optimization
      end
  end.

(** 1 for [true], 0 for [false]. *)
Definition bool_to_nat (b : bool) : nat := if b then 1%nat else 0%nat.

(** A service that answers every call but the one of the vary stage. *)
Definition service_no_variants : str -> str -> Exn + str :=
  fun system_message _ =>
    if decide (system_message = variants_system_message)
    then inl (Exception (lit "timeout")) else inr (lit "TONE: Calm").

(** A reply of the vary stage in the format the prompt asks for. *)
Definition variants_format (a b : str) : str :=
  lit "VARIANT_A:" ++ nl ++ a ++ nl ++ nl ++ lit "VARIANT_B:" ++ nl ++ b.

(** A reply of the analyze stage in the format the prompt asks for. *)
Definition analysis_format (t s1 s2 s3 : str) : str :=
  lit "TONE: " ++ t ++ nl ++ lit "SUGGESTIONS:" ++ nl
  ++ lit "1. " ++ s1 ++ nl ++ lit "2. " ++ s2 ++ nl ++ lit "3. " ++ s3.

(** A text without a line feed. *)
Definition is_line (s : str) : bool := forallb is_dot s.

(** A text without a digit. *)
Definition no_digit (s : str) : bool := forallb (fun c => negb (is_digit c)) s.

(** A text that is not empty and does not start with white space. *)
Definition starts_with_text (s : str) : bool :=
  match s with
  | c :: _ => negb (is_space c)
  | [] => false
  end.

(** A line of a numbered list: the number, a full stop, a blank and the text. *)
Definition numbered_line (item : str * str) : str :=
  fst item ++ lit ". " ++ snd item.

(** The lines of a numbered list, one under the other. *)
Fixpoint numbered_list (items : list (str * str)) : str :=
  match items with
  | [] => []
  | [item] => numbered_line item
  | item :: rest => numbered_line item ++ nl ++ numbered_list rest
  end.

(** A numbered list line as the prompt asks for it: the number is one or
    more digits, the text is one line, not empty, and does not start with
    white space. *)
Definition well_formed_item (item : str * str) : bool :=
  match fst item with [] => false | _ :: _ => forallb is_digit (fst item) end
  && starts_with_text (snd item) && is_line (snd item).

(** The text has a digit directly followed by a full stop. *)
Fixpoint has_numbered_mark (s : str) : bool :=
  match s with
  | [] => false
  | c :: t =>
      (is_digit c
       && match t with
          | d :: _ => if decide (d = "."%char) then true else false
          | [] => false
          end)
      || has_numbered_mark t
  end.

(** What may follow a numbered list: nothing, or further lines without a digit. *)
Definition plain_trailer (s : str) : bool :=
  no_digit s
  && match s with
     | c :: _ => if decide (c = newline) then true else false
     | [] => true
     end.

(** * Properties *)

(** ** Comparisons and clamping *)

Lemma Qlt_bool_iff (a b : Q) : Qlt_bool a b = true <-> a < b.
Proof.
  unfold Qlt_bool. rewrite negb_true_iff. split.
  - intros H. apply Qnot_le_lt. intros Hle.
    apply Qle_bool_iff in Hle. congruence.
  - intros H. destruct (Qle_bool b a) eqn:E; [|reflexivity].
    apply Qle_bool_iff in E. exfalso. apply (Qlt_not_le _ _ H E).
Qed.

Lemma Qlt_bool_false (a b : Q) : Qlt_bool a b = false <-> b <= a.
Proof.
  split.
  - intros H. destruct (Qlt_le_dec a b) as [Hlt|Hle]; [|exact Hle].
    apply Qlt_bool_iff in Hlt. congruence.
  - intros H. destruct (Qlt_bool a b) eqn:E; [|reflexivity].
    apply Qlt_bool_iff in E. exfalso. apply (Qlt_not_le _ _ E H).
Qed.

Ltac case_Qlt :=
  repeat match goal with
  | |- context [Qlt_bool ?a ?b] =>
      let E := fresh "E" in
      destruct (Qlt_bool a b) eqn:E;
      [apply Qlt_bool_iff in E | apply Qlt_bool_false in E]
  end.

Lemma py_clamp_eq (x : Q) : py_max 0 (py_min 100 x) == clamp 0 100 x.
Proof.
  unfold py_max, py_min, clamp.
  destruct (Qlt_bool x 100) eqn:E1; [apply Qlt_bool_iff in E1 | apply Qlt_bool_false in E1];
  case_Qlt; lra.
Qed.

Lemma clamp_range (x : Q) : 0 <= clamp 0 100 x /\ clamp 0 100 x <= 100.
Proof. unfold clamp. case_Qlt; lra. Qed.

Lemma Qnat_nonneg (n : nat) : 0 <= Qnat n.
Proof. unfold Qnat, Qle. simpl. lia. Qed.

Lemma Qnat_pos (n : nat) : (0 < n)%nat -> 0 < Qnat n.
Proof. unfold Qnat, Qlt. simpl. lia. Qed.

Lemma Qnat_le (n m : nat) : (n <= m)%nat -> Qnat n <= Qnat m.
Proof. unfold Qnat, Qle. simpl. lia. Qed.

(** ** Regular expressions over one character class *)

Section ClassRuns.
Variable p : ascii -> bool.

Lemma re_class_plus_eq (acc s : str) :
  re_plus_group p (fun g rest => Some (g, rest)) acc s =
  match s with
  | c :: _ => if p c then Some (acc ++ take_while p s, drop_while p s) else None
  | [] => None
  end.
Proof.
  revert acc. induction s as [|c t IH]; intros acc; [reflexivity|].
  simpl. destruct (p c) eqn:Hc; [|reflexivity].
  rewrite IH. destruct t as [|d t']; simpl.
  - reflexivity.
  - destruct (p d); simpl; rewrite <- ?app_assoc; reflexivity.
Qed.

Lemma drop_while_length (s : str) : (length (drop_while p s) <= length s)%nat.
Proof.
  induction s as [|c t IH]; simpl; [lia|].
  destruct (p c); simpl; lia.
Qed.

Lemma count_runs_head (c : ascii) (t : str) :
  p c = true -> count_runs p (c :: t) = S (count_runs p (drop_while p t)).
Proof.
  revert c. induction t as [|d t' IH]; intros c Hc.
  - simpl. rewrite Hc. reflexivity.
  - change (count_runs p (c :: d :: t'))
      with (if p c && negb (p d) then S (count_runs p (d :: t'))
            else count_runs p (d :: t')).
    rewrite Hc. destruct (p d) eqn:Hd; simpl andb; cbv iota.
    + rewrite (IH d Hd). simpl. rewrite Hd. reflexivity.
    + simpl drop_while. rewrite Hd. reflexivity.
Qed.

Lemma count_runs_skip (c : ascii) (t : str) :
  p c = false -> count_runs p (c :: t) = count_runs p t.
Proof. intros Hc. simpl. rewrite Hc. reflexivity. Qed.

(** [re.findall] of [[class]+] finds as many matches as the text has
    maximal runs of the class, whatever fuel exceeds the length. *)
Lemma findall_fuel_class_length (fuel : nat) (s : str) :
  (length s < fuel)%nat ->
  length (findall_fuel fuel (re_class_plus p) s) = count_runs p s.
Proof.
  revert s. induction fuel as [|fuel IH]; intros s Hlen; [lia|].
  simpl. unfold re_class_plus at 1. rewrite re_class_plus_eq.
  destruct s as [|c t]; [reflexivity|].
  destruct (p c) eqn:Hc.
  - simpl length. rewrite Hc. fold (re_class_plus p).
    rewrite IH, (count_runs_head c t Hc); [reflexivity|].
    pose proof (drop_while_length t). simpl in Hlen. lia.
  - fold (re_class_plus p). rewrite IH, (count_runs_skip c t Hc); [reflexivity|].
    simpl in Hlen. lia.
Qed.

Lemma re_findall_class_length (s : str) :
  length (re_findall (re_class_plus p) s) = count_runs p s.
Proof. apply findall_fuel_class_length. lia. Qed.

(** [re.split] on [[class]+] returns one piece more than there are runs. *)
Lemma split_fuel_class_length (fuel : nat) (cur s : str) :
  (length s < fuel)%nat ->
  length (split_fuel fuel (re_class_plus p) cur s) = S (count_runs p s).
Proof.
  revert cur s. induction fuel as [|fuel IH]; intros cur s Hlen; [lia|].
  simpl. unfold re_class_plus at 1. rewrite re_class_plus_eq.
  destruct s as [|c t]; [reflexivity|].
  destruct (p c) eqn:Hc.
  - simpl length. rewrite Hc. fold (re_class_plus p).
    rewrite IH, (count_runs_head c t Hc); [reflexivity|].
    pose proof (drop_while_length t). simpl in Hlen. lia.
  - fold (re_class_plus p). rewrite IH, (count_runs_skip c t Hc); [reflexivity|].
    simpl in Hlen. lia.
Qed.

Lemma re_split_class_length (s : str) :
  length (re_split (re_class_plus p) s) = S (count_runs p s).
Proof. apply split_fuel_class_length. lia. Qed.

Lemma count_runs_map (f : ascii -> ascii) (s : str) :
  count_runs p (map f s) = count_runs (fun c => p (f c)) s.
Proof.
  induction s as [|c t IH]; [reflexivity|].
  simpl. rewrite IH. destruct t; reflexivity.
Qed.
End ClassRuns.

(** ** The fuel of [re.findall] and [re.split] is never used up *)

Lemma re_lit_keeps (l : str) (k : matcher) : keeps_input k -> keeps_input (re_lit l k).
Proof.
  intros Hk. induction l as [|a l IH]; intros s g rest; simpl; [apply Hk|].
  destruct s as [|b s]; [discriminate|].
  destruct (decide (a = b)); [|discriminate].
  intros H. apply IH in H. simpl. lia.
Qed.

Lemma re_star_keeps (p : ascii -> bool) (k : matcher) :
  keeps_input k -> keeps_input (re_star p k).
Proof.
  intros Hk s. induction s as [|c t IH]; intros g rest; simpl; [apply Hk|].
  destruct (p c); [|apply Hk].
  destruct (re_star p k t) as [[g' rest']|] eqn:E.
  - intros H. injection H as <- <-. specialize (IH _ _ eq_refl). lia.
  - apply Hk.
Qed.

Lemma re_plus_consumes (p : ascii -> bool) (k : matcher) :
  keeps_input k -> consumes (re_plus p k).
Proof.
  intros Hk s. induction s as [|c t IH]; intros g rest; simpl; [discriminate|].
  destruct (p c); [|discriminate].
  destruct (re_plus p k t) as [[g' rest']|] eqn:E.
  - intros H. injection H as <- <-. specialize (IH _ _ eq_refl). lia.
  - intros H. apply Hk in H. lia.
Qed.

Lemma re_plus_group_consumes (p : ascii -> bool) (k : str -> matcher) (acc : str) :
  (forall g, keeps_input (k g)) -> consumes (re_plus_group p k acc).
Proof.
  intros Hk s. revert acc. induction s as [|c t IH]; intros acc g rest; simpl; [discriminate|].
  destruct (p c); [|discriminate].
  destruct (re_plus_group p k (acc ++ [c]) t) as [[g' rest']|] eqn:E.
  - intros H. injection H as <- <-. specialize (IH _ _ _ E). lia.
  - intros H. apply Hk in H. lia.
Qed.

Lemma consumes_keeps (m : matcher) : consumes m -> keeps_input m.
Proof. intros H s g rest Hm. apply H in Hm. lia. Qed.

Lemma re_class_plus_consumes (p : ascii -> bool) : consumes (re_class_plus p).
Proof.
  apply re_plus_group_consumes. intros g s g' rest H. injection H as _ <-. lia.
Qed.

Lemma re_numbered_consumes : consumes re_numbered.
Proof.
  unfold re_numbered.
  apply re_plus_consumes, re_lit_keeps, re_star_keeps, consumes_keeps, re_plus_group_consumes.
  intros g s g' rest H. injection H as _ <-. lia.
Qed.

(** With a matcher that consumes input, any fuel above the length of the
    text gives the same matches. *)
Lemma findall_fuel_enough (m : matcher) (fuel fuel' : nat) (s : str) :
  consumes m -> (length s < fuel)%nat -> (length s < fuel')%nat ->
  findall_fuel fuel m s = findall_fuel fuel' m s.
Proof.
  intros Hm. revert fuel' s. induction fuel as [|fuel IH]; intros fuel' s H1 H2; [lia|].
  destruct fuel' as [|fuel']; [lia|]. simpl.
  destruct (m s) as [[g rest]|] eqn:E.
  - apply Hm in E. f_equal. apply IH; lia.
  - destruct s as [|c t]; [reflexivity|]. simpl in H1, H2. apply IH; lia.
Qed.

Lemma split_fuel_enough (m : matcher) (fuel fuel' : nat) (cur s : str) :
  consumes m -> (length s < fuel)%nat -> (length s < fuel')%nat ->
  split_fuel fuel m cur s = split_fuel fuel' m cur s.
Proof.
  intros Hm. revert fuel' cur s.
  induction fuel as [|fuel IH]; intros fuel' cur s H1 H2; [lia|].
  destruct fuel' as [|fuel']; [lia|]. simpl.
  destruct (m s) as [[g rest]|] eqn:E.
  - apply Hm in E. f_equal. apply IH; lia.
  - destruct s as [|c t]; [reflexivity|]. simpl in H1, H2. apply IH; lia.
Qed.

(** [re.findall] resumes after each match: the matches of a text are the
    first match and the matches of what is left after it. *)
Lemma re_findall_step (m : matcher) (s : str) :
  consumes m ->
  re_findall m s =
  match m s with
  | Some (g, rest) => g :: re_findall m rest
  | None =>
      match s with
      | [] => []
      | _ :: t => re_findall m t
      end
  end.
Proof.
  intros Hm. unfold re_findall at 1. cbn [findall_fuel].
  destruct (m s) as [[g rest]|] eqn:E.
  - f_equal. unfold re_findall.
    apply findall_fuel_enough; [exact Hm | apply Hm in E; lia | lia].
  - destruct s as [|c t]; [reflexivity|]. unfold re_findall.
    apply findall_fuel_enough; [exact Hm | simpl; lia | lia].
Qed.

(** The tokens [\w+] finds are non-empty runs of word characters. *)
Lemma re_findall_class_runs (p : ascii -> bool) (s w : str) :
  In w (re_findall (re_class_plus p) s) -> w <> [] /\ forallb p w = true.
Proof.
  unfold re_findall. generalize (S (length s)) as fuel. intros fuel. revert s.
  induction fuel as [|fuel IH]; intros s; simpl; [intros []|].
  unfold re_class_plus at 1. rewrite re_class_plus_eq. fold (re_class_plus p).
  destruct s as [|c t]; [intros []|].
  destruct (p c) eqn:Hc; [|apply IH].
  intros [<-|Hin]; [|apply IH in Hin; exact Hin].
  simpl. rewrite Hc. split; [discriminate|]. simpl. rewrite Hc. simpl.
  clear. induction t as [|d t IH]; simpl; [reflexivity|].
  destruct (p d) eqn:Hd; simpl; [rewrite Hd; exact IH | reflexivity].
Qed.

(** [str.split] returns as many words as the text has maximal runs of
    characters that are not white space. *)
Lemma split_from_length (cur s : str) :
  length (split_from cur s) =
  (count_runs not_space s +
   match cur, s with
   | [], _ => 0
   | _ :: _, [] => 1
   | _ :: _, c :: _ => if is_space c then 1 else 0
   end)%nat.
Proof.
  revert cur. induction s as [|c t IH]; intros cur.
  - destruct cur; reflexivity.
  - simpl split_from. destruct (is_space c) eqn:Hc.
    + rewrite (count_runs_skip not_space c t) by (unfold not_space; rewrite Hc; reflexivity).
      destruct cur; simpl length; rewrite IH; simpl; lia.
    + rewrite IH.
      assert (Hn : not_space c = true) by (unfold not_space; rewrite Hc; reflexivity).
      assert (Hcnt : count_runs not_space (c :: t) =
                     (count_runs not_space t +
                      match t with
                      | [] => 1
                      | d :: _ => if is_space d then 1 else 0
                      end)%nat).
      { destruct t as [|d t'].
        - simpl. rewrite Hn. reflexivity.
        - change (count_runs not_space (c :: d :: t'))
            with (if not_space c && negb (not_space d)
                  then S (count_runs not_space (d :: t'))
                  else count_runs not_space (d :: t')).
          rewrite Hn. unfold not_space at 1.
          destruct (is_space d); simpl negb; simpl andb; cbv iota; lia. }
      rewrite Hcnt. destruct cur, t; simpl app; cbv iota; rewrite ?Hc; lia.
Qed.

Lemma str_split_length (s : str) : length (str_split s) = spec_word_count s.
Proof. unfold str_split, spec_word_count. rewrite split_from_length. simpl. lia. Qed.

Lemma syllables_eq (text : str) :
  sum_nat (map (fun word => length (re_findall re_vowels (lower word))) (str_split text))
  = spec_syllables text.
Proof.
  unfold spec_syllables. f_equal. apply map_ext. intros w.
  unfold re_vowels, lower. rewrite re_findall_class_length, count_runs_map. reflexivity.
Qed.

(** ** Readability *)

(** [re.split] returns one piece more than the text has runs of terminators,
    so the divisor of the formula is never zero. *)
Lemma calculate_readability_unfold (text : str) :
  calculate_readability text ==
  (if (spec_word_count text =? 0)%nat then 0
   else clamp 0 100 (flesch (spec_word_count text) (S (count_runs is_terminator text))
                            (spec_syllables text))).
Proof.
  unfold calculate_readability. cbv zeta.
  rewrite syllables_eq, str_split_length.
  unfold re_terminators. rewrite re_split_class_length.
  simpl orb.
  destruct (spec_word_count text =? 0)%nat; [reflexivity|].
  apply py_clamp_eq.
Qed.

Lemma count_runs_none (p : ascii -> bool) (s : str) :
  existsb p s = false -> count_runs p s = 0%nat.
Proof.
  induction s as [|c t IH]; [reflexivity|].
  intros H. cbn [existsb] in H. apply orb_false_iff in H as [Hc Ht].
  rewrite count_runs_skip by exact Hc. apply IH. exact Ht.
Qed.

(** C4. The guard [sentences == 0] of [calculate_readability] never fires:
    [re.split] returns one piece more than the text has runs of terminators,
    so at least one. For every text the score is in [0,100] and is 0 without
    words, as the claim says; but a text with words and without a sentence
    terminator is scored by the formula with one sentence and does not get
    0.0: [hello] and [HELLO] get 36.62. The same count is one too high for a
    text that ends with a terminator: "Hello world. This is great!" is split
    into three pieces. *)
Theorem readability_sentence_guard_never_fires :
  (forall text, length (re_split re_terminators text) = S (count_runs is_terminator text)) /\
  (forall text, 0 <= calculate_readability text <= 100) /\
  (forall text, spec_word_count text = 0%nat -> calculate_readability text == 0) /\
  (forall text,
     spec_word_count text <> 0%nat -> existsb is_terminator text = false ->
     calculate_readability text ==
       clamp 0 100 (flesch (spec_word_count text) 1 (spec_syllables text))) /\
  existsb is_terminator (lit "hello") = false /\
  calculate_readability (lit "hello") == 3662 # 100 /\
  ~ calculate_readability (lit "hello") == 0 /\
  calculate_readability (lit "HELLO") == 3662 # 100 /\
  length (re_split re_terminators (lit "Hello world. This is great!")) = 3%nat.
Proof.
  split; [intros text; apply re_split_class_length|].
  split.
  { intros text. rewrite calculate_readability_unfold.
    destruct (spec_word_count text =? 0)%nat; [lra | apply clamp_range]. }
  split.
  { intros text H. rewrite calculate_readability_unfold, H. reflexivity. }
  split.
  { intros text Hw Ht. rewrite calculate_readability_unfold.
    apply Nat.eqb_neq in Hw. rewrite Hw.
    rewrite (count_runs_none is_terminator text Ht). reflexivity. }
  split; [reflexivity|].
  split; [vm_compute; reflexivity|].
  split; [vm_compute; discriminate|].
  split; vm_compute; reflexivity.
Qed.

(** ** The SEO score *)

Lemma py_min_eq (a b : Q) : py_min a b == Qmin a b.
Proof.
  unfold py_min. destruct (Q.min_spec a b) as [[H1 H2]|[H1 H2]]; rewrite H2; case_Qlt; lra.
Qed.

Lemma size_list_to_set_remove_dups (l : list str) :
  size (list_to_set l : gset str) = length (remove_dups l).
Proof.
  rewrite <- (size_list_to_set (C := gset str) (remove_dups l)) by apply NoDup_remove_dups.
  f_equal. apply set_eq. intros x.
  rewrite !elem_of_list_to_set, elem_of_remove_dups. reflexivity.
Qed.

Lemma remove_dups_length_le (l : list str) : (length (remove_dups l) <= length l)%nat.
Proof.
  apply submseteq_length, NoDup_submseteq; [apply NoDup_remove_dups|].
  intros x. rewrite elem_of_remove_dups. auto.
Qed.

Lemma calculate_seo_score_unfold (text title : str) :
  calculate_seo_score text title == seo_score_spec text title.
Proof.
  unfold calculate_seo_score, seo_score_spec. cbv zeta.
  rewrite py_min_eq. apply Q.min_compat; [reflexivity|].
  rewrite size_list_to_set_remove_dups, str_split_length.
  unfold seo_length_points, seo_title_points, seo_structure_points, seo_variety_points.
  rewrite <- (str_split_length text).
  destruct (str_split text) as [|w ws] eqn:Hw.
  - change (length (@nil str)) with 0%nat.
    change (0 <? 0)%nat with false. change (300 <=? 0)%nat with false.
    change (2000 <? 0)%nat with false. cbn [andb]. cbv iota.
    repeat match goal with
    | |- context [if ?b then _ else _] => destruct b
    end; lra.
  - change (0 <? length (w :: ws))%nat with true. cbv iota.
    repeat match goal with
    | |- context [if ?b then _ else _] => destruct b
    end; lra.
Qed.

Lemma seo_length_points_range (n : nat) :
  10 <= seo_length_points n /\ seo_length_points n <= 30.
Proof.
  unfold seo_length_points.
  destruct ((300 <=? n)%nat && (n <=? 2000)%nat); [lra|].
  destruct (2000 <? n)%nat; lra.
Qed.

Lemma seo_title_points_range (text title : str) :
  0 <= seo_title_points text title /\ seo_title_points text title <= 20.
Proof. unfold seo_title_points. destruct (contains _ _); lra. Qed.

Lemma seo_structure_points_range (text : str) :
  0 <= seo_structure_points text /\ seo_structure_points text <= 20.
Proof. unfold seo_structure_points. destruct (_ || _); lra. Qed.

Lemma seo_variety_points_range (text : str) :
  0 <= seo_variety_points text /\ seo_variety_points text <= 30.
Proof.
  unfold seo_variety_points. destruct (str_split text) as [|w ws] eqn:Hw; [lra|].
  set (l := w :: ws).
  pose proof (remove_dups_length_le (map lower l)) as Hle.
  rewrite length_map in Hle.
  pose proof (Qnat_le _ _ Hle) as HleQ.
  pose proof (Qnat_nonneg (length (remove_dups (map lower l)))) as H0.
  assert (Hpos : 0 < Qnat (length l)) by (apply Qnat_pos; simpl; lia).
  set (u := Qnat (length (remove_dups (map lower l)))) in *.
  set (n := Qnat (length l)) in *.
  assert (H1 : 0 <= u / n) by (apply Qle_shift_div_l; [exact Hpos|lra]).
  assert (H2 : u / n <= 1) by (apply Qle_shift_div_r; [exact Hpos|lra]).
  lra.
Qed.

Lemma starts_with_spec (p s : str) :
  starts_with p s = true <-> exists post, s = p ++ post.
Proof.
  revert s. induction p as [|a p IH]; intros s; simpl.
  - split; [intros _; exists s; reflexivity | reflexivity].
  - destruct s as [|b s].
    + split; [discriminate | intros [post H]; discriminate].
    + destruct (decide (a = b)) as [->|Hne].
      * rewrite IH. split; intros [post H]; exists post; [rewrite H; reflexivity|].
        injection H as H. exact H.
      * split; [discriminate|]. intros [post H]. injection H as H1 H2. congruence.
Qed.



Lemma seo_sum_range (text title : str) :
  10 <= seo_length_points (spec_word_count text) + seo_title_points text title
        + seo_structure_points text + seo_variety_points text <= 100.
Proof.
  pose proof (seo_length_points_range (spec_word_count text)).
  pose proof (seo_title_points_range text title).
  pose proof (seo_structure_points_range text).
  pose proof (seo_variety_points_range text).
  lra.
Qed.

Lemma calculate_seo_score_sum (text title : str) :
  calculate_seo_score text title ==
  seo_length_points (spec_word_count text) + seo_title_points text title
  + seo_structure_points text + seo_variety_points text.
Proof.
  rewrite calculate_seo_score_unfold. unfold seo_score_spec.
  apply Q.min_r. apply seo_sum_range.
Qed.

(** *** The terms of the specification *)

















(** C10. For every text and title the SEO score is at least 10, hence never
    0; with the empty title the 20 points for the title are always part of
    the score, and the empty content with the empty title scores 30. *)
Theorem seo_score_at_least_ten (text title : str) :
  10 <= calculate_seo_score text title /\
  ~ calculate_seo_score text title == 0 /\
  contains (lower []) (lower text) = true /\
  calculate_seo_score text [] ==
    seo_length_points (spec_word_count text) + 20
    + seo_structure_points text + seo_variety_points text /\
  30 <= calculate_seo_score text [] /\
  calculate_seo_score [] [] == 30.
Proof.
  pose proof (seo_sum_range text title) as Hr.
  pose proof (calculate_seo_score_sum text title) as Hs.
  assert (Hc : contains (lower []) (lower text) = true)
    by (destruct (lower text); reflexivity).
  assert (Ht : calculate_seo_score text [] ==
               seo_length_points (spec_word_count text) + 20
               + seo_structure_points text + seo_variety_points text).
  { rewrite calculate_seo_score_sum. unfold seo_title_points. rewrite Hc. reflexivity. }
  split; [lra|]. split; [lra|]. split; [exact Hc|]. split; [exact Ht|]. split.
  - pose proof (seo_length_points_range (spec_word_count text)).
    pose proof (seo_structure_points_range text).
    pose proof (seo_variety_points_range text).
    lra.
  - vm_compute. reflexivity.
Qed.

(** ** Dictionaries *)

Section Dict.
Context {V : Type}.
Implicit Types (d : dict V) (k : str) (v : V).

Lemma dict_set_in d k v :
  In k (map fst d) -> map fst (dict_set k v d) = map fst d.
Proof.
  induction d as [|[k' v'] d IH]; simpl; [tauto|].
  intros Hin. destruct (decide (k = k')) as [->|Hne]; [reflexivity|].
  simpl. f_equal. apply IH. destruct Hin; congruence.
Qed.

Lemma dict_set_fresh d k v :
  ~ In k (map fst d) -> dict_set k v d = d ++ [(k, v)].
Proof.
  induction d as [|[k' v'] d IH]; simpl; [reflexivity|].
  intros Hin. destruct (decide (k = k')) as [->|Hne]; [tauto|].
  f_equal. apply IH. tauto.
Qed.

Lemma dict_get_set d k k' v default :
  dict_get k' default (dict_set k v d) =
  if decide (k' = k) then v else dict_get k' default d.
Proof.
  induction d as [|[k0 v0] d IH]; simpl.
  - destruct (decide (k' = k)); reflexivity.
  - destruct (decide (k = k0)) as [->|Hne]; simpl.
    + destruct (decide (k' = k0)); reflexivity.
    + destruct (decide (k' = k0)) as [->|Hne'].
      * destruct (decide (k0 = k)); congruence.
      * exact IH.
Qed.

Lemma dict_get_in d k v default :
  List.NoDup (map fst d) -> In (k, v) d -> dict_get k default d = v.
Proof.
  induction d as [|[k0 v0] d IH]; simpl; [tauto|].
  intros Hnd [Heq|Hin].
  - injection Heq as -> ->. destruct (decide (k = k)); congruence.
  - apply NoDup_cons_iff in Hnd as [Hnot Hnd].
    destruct (decide (k = k0)) as [->|Hne]; [|auto].
    exfalso. apply Hnot. change k0 with (fst (k0, v)). apply in_map. exact Hin.
Qed.

Lemma dict_of_items_acc (acc items : list (str * V)) :
  List.NoDup (map fst (acc ++ items)) ->
  fold_left (fun d kv => dict_set (fst kv) (snd kv) d) items acc = acc ++ items.
Proof.
  revert acc. induction items as [|[k v] items IH]; intros acc Hnd; simpl.
  - rewrite app_nil_r. reflexivity.
  - rewrite dict_set_fresh.
    + rewrite IH; rewrite <- app_assoc; [reflexivity | exact Hnd].
    + rewrite map_app in Hnd. simpl in Hnd.
      apply NoDup_remove_2 in Hnd. intros Hin. apply Hnd.
      apply in_or_app. left. exact Hin.
Qed.

(** [dict(items)] keeps a list of items with distinct keys as it is. *)
Lemma dict_of_items_nodup (items : list (str * V)) :
  List.NoDup (map fst items) -> dict_of_items items = items.
Proof. intros H. unfold dict_of_items. rewrite dict_of_items_acc; [reflexivity | exact H]. Qed.
End Dict.

(** ** Counting the tokens *)

Lemma first_index_app_in (k : str) (l l' : list str) :
  In k l -> first_index k (l ++ l') = first_index k l.
Proof.
  induction l as [|x l IH]; simpl; [tauto|].
  intros Hin. destruct (decide (k = x)); [reflexivity|].
  f_equal. apply IH. destruct Hin; congruence.
Qed.

Lemma first_index_app_fresh (k : str) (l l' : list str) :
  ~ In k l -> first_index k (l ++ l') = (length l + first_index k l')%nat.
Proof.
  induction l as [|x l IH]; simpl; [reflexivity|].
  intros Hin. destruct (decide (k = x)) as [->|]; [tauto|].
  f_equal. apply IH. tauto.
Qed.

Lemma first_index_lt (k : str) (l : list str) :
  In k l -> (first_index k l < length l)%nat.
Proof.
  induction l as [|x l IH]; simpl; [tauto|].
  intros Hin. destruct (decide (k = x)); [lia|].
  assert (In k l) by (destruct Hin; congruence). specialize (IH H). lia.
Qed.

Lemma occurrences_app (k : str) (l l' : list str) :
  occurrences k (l ++ l') = (occurrences k l + occurrences k l')%nat.
Proof. unfold occurrences. rewrite List.filter_app, length_app. reflexivity. Qed.

Lemma occurrences_pos (k : str) (l : list str) : In k l -> (0 < occurrences k l)%nat.
Proof.
  unfold occurrences. induction l as [|x l IH]; simpl; [tauto|].
  intros Hin. destruct (decide (k = x)); simpl; [lia|].
  apply IH. destruct Hin; congruence.
Qed.

Lemma count_words_snoc (l : list str) (w : str) :
  count_words (l ++ [w]) =
  dict_set w (dict_get w 0%nat (count_words l) + 1)%nat (count_words l).
Proof. unfold count_words. rewrite fold_left_app. reflexivity. Qed.

Lemma count_words_get (l : list str) (k : str) :
  dict_get k 0%nat (count_words l) = occurrences k l.
Proof.
  induction l as [|w l IH] using rev_ind; [reflexivity|].
  rewrite count_words_snoc, dict_get_set, occurrences_app, IH.
  unfold occurrences at 3. simpl.
  destruct (decide (k = w)) as [->|Hne]; simpl; [|lia].
  rewrite <- IH. lia.
Qed.

Lemma StronglySorted_snoc {A} (R : A -> A -> Prop) (l : list A) (x : A) :
  StronglySorted R l -> Forall (fun y => R y x) l -> StronglySorted R (l ++ [x]).
Proof.
  induction l as [|a l IH]; simpl; intros Hs Hf.
  - repeat constructor.
  - apply StronglySorted_inv in Hs as [Hs Ha].
    apply Forall_cons_iff in Hf as [Hax Hf].
    constructor; [apply IH; assumption|].
    apply Forall_app. split; [exact Ha | repeat constructor; exact Hax].
Qed.

Lemma StronglySorted_weaken {A} (R R' : A -> A -> Prop) (l : list A) :
  (forall a b, In a l -> In b l -> R a b -> R' a b) ->
  StronglySorted R l -> StronglySorted R' l.
Proof.
  induction l as [|a l IH]; intros Himp Hs; [constructor|].
  apply StronglySorted_inv in Hs as [Hs Ha].
  constructor.
  - apply IH; [|exact Hs]. intros x y Hx Hy. apply Himp; right; assumption.
  - rewrite List.Forall_forall in *. intros b Hb.
    apply Himp; [left; reflexivity | right; exact Hb | apply Ha; exact Hb].
Qed.

(** The keys of the frequency table are the distinct tokens in the order in
    which they are first met. *)
Lemma count_words_keys (l : list str) :
  List.NoDup (map fst (count_words l)) /\
  (forall k, In k (map fst (count_words l)) <-> In k l) /\
  StronglySorted (fun a b => (first_index a l < first_index b l)%nat)
                 (map fst (count_words l)).
Proof.
  induction l as [|w l IH] using rev_ind.
  - simpl. split; [constructor|]. split; [tauto | constructor].
  - destruct IH as [Hnd [Hin Hs]]. rewrite count_words_snoc.
    destruct (in_dec (fun a b : str => decide (a = b)) w l) as [Hw|Hw].
    + rewrite dict_set_in by (apply Hin; exact Hw).
      split; [exact Hnd|]. split.
      * intros k. rewrite Hin, in_app_iff. simpl. intuition congruence.
      * eapply StronglySorted_weaken; [|exact Hs].
        intros a b Ha Hb. apply Hin in Ha, Hb.
        rewrite !first_index_app_in by assumption. auto.
    + rewrite dict_set_fresh by (rewrite Hin; exact Hw).
      rewrite map_app. simpl. split; [|split].
      * apply List.NoDup_app; [exact Hnd | repeat constructor; simpl; tauto |].
        intros x Hx [Heq|[]]. subst. apply Hin in Hx. tauto.
      * intros k. rewrite !in_app_iff, Hin. reflexivity.
      * apply StronglySorted_snoc.
        -- eapply StronglySorted_weaken; [|exact Hs].
           intros a b Ha Hb. apply Hin in Ha, Hb.
           rewrite !first_index_app_in by assumption. auto.
        -- rewrite List.Forall_forall. intros k Hk. apply Hin in Hk.
           rewrite first_index_app_in by exact Hk.
           rewrite first_index_app_fresh by exact Hw.
           pose proof (first_index_lt k l Hk). lia.
Qed.

Lemma count_words_value (l : list str) (k : str) (v : nat) :
  In (k, v) (count_words l) -> v = occurrences k l /\ In k l.
Proof.
  intros Hin. destruct (count_words_keys l) as [Hnd [Hkeys _]]. split.
  - rewrite <- count_words_get. symmetry. apply dict_get_in; assumption.
  - apply Hkeys. change k with (fst (k, v)). apply in_map. exact Hin.
Qed.

Lemma sum_nat_app (l l' : list nat) : sum_nat (l ++ l') = (sum_nat l + sum_nat l')%nat.
Proof.
  unfold sum_nat. rewrite fold_left_app.
  generalize (fold_left Nat.add l 0%nat) as a.
  induction l' as [|x l' IH]; intros a; simpl; [lia|].
  rewrite IH, (IH x). lia.
Qed.

Lemma sum_nat_cons (x : nat) (l : list nat) : sum_nat (x :: l) = (x + sum_nat l)%nat.
Proof. change (x :: l) with ([x] ++ l). rewrite sum_nat_app. reflexivity. Qed.

Lemma dict_set_sum (d : dict nat) (k : str) :
  sum_nat (map snd (dict_set k (dict_get k 0%nat d + 1)%nat d)) = S (sum_nat (map snd d)).
Proof.
  induction d as [|[k' v'] d IH]; simpl; [reflexivity|].
  destruct (decide (k = k')) as [->|Hne]; simpl.
  - rewrite !sum_nat_cons. lia.
  - rewrite !sum_nat_cons, IH. lia.
Qed.

(** The counts of the frequency table add up to the number of tokens. *)
Lemma count_words_total (l : list str) : sum_nat (map snd (count_words l)) = length l.
Proof.
  induction l as [|w l IH] using rev_ind; [reflexivity|].
  rewrite count_words_snoc, dict_set_sum, IH, length_app. simpl. lia.
Qed.

(** ** The stable sort *)

Section StableSort.
Context {A : Type} (key : A -> Q) (R : A -> A -> Prop).

Lemma insert_desc_perm (x : A) (l : list A) :
  Permutation (insert_desc Qlt_bool key x l) (x :: l).
Proof.
  induction l as [|y t IH]; simpl; [reflexivity|].
  destruct (Qlt_bool (key x) (key y)); [|reflexivity].
  rewrite IH. apply perm_swap.
Qed.

Lemma sorted_desc_perm (l : list A) : Permutation (sorted_desc Qlt_bool key l) l.
Proof.
  induction l as [|x t IH]; simpl; [reflexivity|].
  rewrite insert_desc_perm, IH. reflexivity.
Qed.

Lemma insert_desc_sorted (x : A) (l : list A) :
  StronglySorted (key_then key R) l -> Forall (R x) l ->
  StronglySorted (key_then key R) (insert_desc Qlt_bool key x l).
Proof.
  induction l as [|y t IH]; intros Hs Hx; simpl; [repeat constructor|].
  apply StronglySorted_inv in Hs as [Hs Hy].
  apply Forall_cons_iff in Hx as [Hxy Hxt].
  destruct (Qlt_bool (key x) (key y)) eqn:E.
  - apply Qlt_bool_iff in E. constructor; [apply IH; assumption|].
    rewrite List.Forall_forall in *. intros z Hz.
    apply (Permutation_in _ (insert_desc_perm x t)) in Hz as [<-|Hz].
    + left. exact E.
    + apply Hy. exact Hz.
  - apply Qlt_bool_false in E. constructor; [constructor; assumption|].
    constructor.
    + destruct (Qlt_le_dec (key y) (key x)) as [Hlt|Hle]; [left; exact Hlt|].
      right. split; [lra | exact Hxy].
    + rewrite List.Forall_forall in *. intros z Hz.
      destruct (Hy z Hz) as [Hlt|[Heq _]].
      * left. lra.
      * destruct (Qlt_le_dec (key z) (key x)) as [Hlt|Hle]; [left; exact Hlt|].
        right. split; [lra | apply Hxt; exact Hz].
Qed.

(** Sorting a list that is in the order [R] puts it in the order
    "higher key first, then [R]": equal keys keep their order. *)
Lemma sorted_desc_sorted (l : list A) :
  StronglySorted R l -> StronglySorted (key_then key R) (sorted_desc Qlt_bool key l).
Proof.
  induction l as [|x t IH]; intros Hs; simpl; [constructor|].
  apply StronglySorted_inv in Hs as [Hs Hx].
  apply insert_desc_sorted; [apply IH; exact Hs|].
  rewrite List.Forall_forall in *. intros z Hz. apply Hx.
  apply (Permutation_in _ (sorted_desc_perm t)). exact Hz.
Qed.
End StableSort.

Lemma StronglySorted_app_inv {A} (R : A -> A -> Prop) (l1 l2 : list A) :
  StronglySorted R (l1 ++ l2) ->
  StronglySorted R l1 /\ (forall x y, In x l1 -> In y l2 -> R x y).
Proof.
  induction l1 as [|a l1 IH]; simpl; intros Hs.
  - split; [constructor | tauto].
  - apply StronglySorted_inv in Hs as [Hs Ha].
    destruct (IH Hs) as [Hs1 H12]. split.
    + constructor; [exact Hs1|].
      rewrite List.Forall_forall in *. intros z Hz. apply Ha, in_or_app. left. exact Hz.
    + intros x y [<-|Hx] Hy; [|apply H12; assumption].
      rewrite List.Forall_forall in Ha. apply Ha, in_or_app. right. exact Hy.
Qed.

Lemma StronglySorted_map {A B} (f : A -> B) (R : B -> B -> Prop) (l : list A) :
  StronglySorted R (map f l) -> StronglySorted (fun a b => R (f a) (f b)) l.
Proof.
  induction l as [|a l IH]; simpl; intros Hs; [constructor|].
  apply StronglySorted_inv in Hs as [Hs Ha]. constructor; [apply IH; exact Hs|].
  rewrite List.Forall_forall in *. intros b Hb. apply Ha, in_map. exact Hb.
Qed.

(** ** Sums of scores *)

Lemma sum_Q_acc (l : list Q) (a : Q) : fold_left Qplus l a == a + sum_Q l.
Proof.
  unfold sum_Q. revert a. induction l as [|x l IH]; intros a; cbn [fold_left]; [lra|].
  rewrite (IH (a + x)), (IH (0 + x)).
  generalize (fold_left Qplus l 0). intros s. lra.
Qed.

Lemma sum_Q_cons (x : Q) (l : list Q) : sum_Q (x :: l) == x + sum_Q l.
Proof. unfold sum_Q at 1. cbn [fold_left]. rewrite sum_Q_acc. lra. Qed.

Lemma sum_Q_app (l l' : list Q) : sum_Q (l ++ l') == sum_Q l + sum_Q l'.
Proof.
  induction l as [|x l IH]; simpl.
  - unfold sum_Q at 2. simpl. lra.
  - rewrite !sum_Q_cons, IH. lra.
Qed.

Lemma sum_Q_nonneg (l : list Q) : Forall (fun x => 0 <= x) l -> 0 <= sum_Q l.
Proof.
  induction 1 as [|x l Hx _ IH]; [unfold sum_Q; simpl; lra|].
  rewrite sum_Q_cons. lra.
Qed.

Lemma sum_Q_perm (l l' : list Q) : Permutation l l' -> sum_Q l == sum_Q l'.
Proof.
  induction 1 as [|x l l' _ IH|x y l|l1 l2 l3 _ IH1 _ IH2].
  - reflexivity.
  - rewrite !sum_Q_cons, IH. reflexivity.
  - rewrite !sum_Q_cons. lra.
  - rewrite IH1. exact IH2.
Qed.

Lemma sum_Q_firstn (n : nat) (l : list Q) :
  Forall (fun x => 0 <= x) l -> sum_Q (firstn n l) <= sum_Q l.
Proof.
  intros Hl. rewrite <- (firstn_skipn n l) at 2. rewrite sum_Q_app.
  assert (0 <= sum_Q (skipn n l)); [|lra].
  apply sum_Q_nonneg. rewrite List.Forall_forall in *. intros x Hx. apply Hl.
  rewrite <- (firstn_skipn n l). apply in_or_app. right. exact Hx.
Qed.

Lemma Qnat_plus (n m : nat) : Qnat (n + m) == Qnat n + Qnat m.
Proof. unfold Qnat. rewrite Nat2Z.inj_add, inject_Z_plus. reflexivity. Qed.

Lemma sum_Q_scaled (t : Q) (d : dict nat) :
  sum_Q (map (fun kv => Qnat (snd kv) / t * 100) d) == Qnat (sum_nat (map snd d)) / t * 100.
Proof.
  induction d as [|[k v] d IH]; cbn [map snd].
  - unfold sum_Q, sum_nat. cbn [fold_left]. change (Qnat 0) with 0. unfold Qdiv. ring.
  - rewrite sum_Q_cons, sum_nat_cons, IH, Qnat_plus. unfold Qdiv. ring.
Qed.

(** ** Keyword density *)

Lemma density_table_keys (tokens : list str) :
  map fst (density_table tokens) = map fst (count_words tokens).
Proof. unfold density_table. rewrite map_map. reflexivity. Qed.

Lemma density_table_nodup (tokens : list str) : List.NoDup (map fst (density_table tokens)).
Proof. rewrite density_table_keys. apply count_words_keys. Qed.

Lemma NoDup_firstn {A} (n : nat) (l : list A) : List.NoDup l -> List.NoDup (firstn n l).
Proof.
  intros H. rewrite <- (firstn_skipn n l) in H. apply NoDup_app_remove_r in H. exact H.
Qed.

Lemma In_firstn {A} (n : nat) (l : list A) (x : A) : In x (firstn n l) -> In x l.
Proof.
  intros H. rewrite <- (firstn_skipn n l). apply in_or_app. left. exact H.
Qed.

Lemma sorted_table_nodup (tokens : list str) :
  List.NoDup (map fst (sorted_desc Qlt_bool snd (density_table tokens))).
Proof.
  eapply Permutation_NoDup; [|apply density_table_nodup].
  apply Permutation_map. symmetry. apply sorted_desc_perm.
Qed.

(** The result of [extract_keywords] is the first five entries of the
    density table sorted by density, highest first. *)
Lemma extract_keywords_unfold (text : str) :
  extract_keywords text =
  firstn 5 (sorted_desc Qlt_bool snd (density_table (keyword_tokens text))).
Proof.
  unfold extract_keywords. cbv zeta.
  change (map lower (List.filter (fun w => (3 <? length w)%nat) (re_findall re_word text)))
    with (keyword_tokens text).
  destruct (keyword_tokens text) as [|t ts] eqn:E; [reflexivity|].
  fold (density_table (t :: ts)).
  rewrite (dict_of_items_nodup (density_table (t :: ts))) by apply density_table_nodup.
  apply dict_of_items_nodup.
  rewrite <- firstn_map. apply NoDup_firstn, sorted_table_nodup.
Qed.

Lemma density_table_entry (tokens : list str) (k : str) (d : Q) :
  In (k, d) (density_table tokens) ->
  In k tokens /\ d == density k tokens /\ 0 < d.
Proof.
  unfold density_table. rewrite in_map_iff. intros [[k' v] [Heq Hin]].
  simpl in Heq. injection Heq as -> <-.
  apply count_words_value in Hin as [-> Hk]. split; [exact Hk|].
  assert (Hlen : 0 < Qnat (length tokens)).
  { apply Qnat_pos. destruct tokens; [destruct Hk | simpl; lia]. }
  assert (Hocc : 0 < Qnat (occurrences k tokens)) by (apply Qnat_pos, occurrences_pos, Hk).
  split.
  - unfold density, Qdiv. ring.
  - apply Qmult_lt_0_compat; [|lra]. apply Qlt_shift_div_l; [exact Hlen | lra].
Qed.

Lemma density_table_complete (tokens : list str) (k : str) :
  In k tokens -> exists d, In (k, d) (density_table tokens).
Proof.
  intros Hk. apply (proj1 (proj2 (count_words_keys tokens))) in Hk.
  rewrite <- density_table_keys in Hk. apply in_map_iff in Hk as [[k' d] [Heq Hin]].
  simpl in Heq. subst. exists d. exact Hin.
Qed.

Lemma density_table_total (tokens : list str) :
  sum_Q (map snd (density_table tokens)) <= 100.
Proof.
  unfold density_table. rewrite map_map. cbn [snd].
  rewrite sum_Q_scaled, count_words_total.
  destruct tokens as [|t ts].
  - change (Qnat (length (@nil str))) with 0. unfold Qdiv. lra.
  - assert (H : 0 < Qnat (length (t :: ts))) by (apply Qnat_pos; simpl; lia).
    assert (Hone : Qnat (length (t :: ts)) / Qnat (length (t :: ts)) == 1)
      by (field; lra).
    rewrite Hone. lra.
Qed.

(** The density table is in the order in which the tokens are first met. *)
Lemma density_table_order (tokens : list str) :
  StronglySorted
    (fun e1 e2 => (first_index (fst e1) tokens < first_index (fst e2) tokens)%nat)
    (density_table tokens).
Proof.
  apply (StronglySorted_map fst
           (fun a b => (first_index a tokens < first_index b tokens)%nat)).
  rewrite density_table_keys. apply count_words_keys.
Qed.

Lemma sorted_table_ranked (tokens : list str) :
  StronglySorted (ranks_before tokens) (sorted_desc Qlt_bool snd (density_table tokens)).
Proof.
  apply (sorted_desc_sorted snd
           (fun e1 e2 => (first_index (fst e1) tokens < first_index (fst e2) tokens)%nat)).
  apply density_table_order.
Qed.

Lemma keyword_tokens_spec (text : str) (k : str) :
  In k (keyword_tokens text) ->
  (exists w, In w (re_findall re_word text) /\ forallb is_word w = true /\
             (3 < length w)%nat /\ k = lower w) /\
  (3 < length k)%nat.
Proof.
  unfold keyword_tokens. rewrite in_map_iff. intros [w [<- Hw]].
  apply List.filter_In in Hw as [Hw Hlen]. apply Nat.ltb_lt in Hlen.
  split; [|unfold lower; rewrite length_map; exact Hlen].
  exists w. destruct (re_findall_class_runs is_word text w Hw) as [_ Hall]. auto.
Qed.

(** C8, amended. For every text [extract_keywords] returns a mapping of at
    most five entries; every key is a lower-cased token of more than three
    characters; every value is the density of its key and is positive; as
    exact numbers, without the rounding of binary64, the values add up to at
    most 100; the entries are the top five by density, highest first, a tie
    going to the token met first; without a qualifying token the mapping is
    empty. *)
Theorem keyword_density_top_five (text : str) :
  let tokens := keyword_tokens text in
  let kd := extract_keywords text in
  (length kd <= 5)%nat /\
  List.NoDup (map fst kd) /\
  (forall k d, In (k, d) kd ->
     (exists w, In w (re_findall re_word text) /\ forallb is_word w = true /\
                (3 < length w)%nat /\ k = lower w) /\
     (3 < length k)%nat /\ d == density k tokens /\ 0 < d) /\
  sum_Q (map snd kd) <= 100 /\
  StronglySorted (ranks_before tokens) kd /\
  (forall k, In k tokens -> ~ In k (map fst kd) ->
     length kd = 5%nat /\
     forall e, In e kd -> ranks_before tokens e (k, density k tokens)) /\
  (tokens = [] -> kd = []).
Proof.
  intros tokens kd. subst kd. rewrite extract_keywords_unfold. fold tokens.
  set (sorted := sorted_desc Qlt_bool snd (density_table tokens)).
  assert (Hperm : Permutation sorted (density_table tokens)) by apply sorted_desc_perm.
  assert (Hin : forall e, In e sorted -> In e (density_table tokens))
    by (intros e; apply Permutation_in; exact Hperm).
  assert (Hsorted : StronglySorted (ranks_before tokens) (firstn 5 sorted ++ skipn 5 sorted))
    by (rewrite firstn_skipn; apply sorted_table_ranked).
  apply StronglySorted_app_inv in Hsorted as [Hs1 Hs2].
  split; [apply firstn_le_length|].
  split; [rewrite <- firstn_map; apply NoDup_firstn, sorted_table_nodup|].
  split.
  { intros k d Hk. apply In_firstn, Hin in Hk.
    destruct (density_table_entry _ _ _ Hk) as [Hk' [Hd Hpos]].
    destruct (keyword_tokens_spec _ _ Hk') as [Hw Hlen]. auto. }
  split.
  { rewrite <- firstn_map.
    eapply Qle_trans; [apply sum_Q_firstn|].
    - rewrite List.Forall_forall. intros x Hx. apply in_map_iff in Hx as [[k d] [<- He]].
      apply Hin, density_table_entry in He. simpl. lra.
    - rewrite (sum_Q_perm _ _ (Permutation_map snd Hperm)). apply density_table_total. }
  split; [exact Hs1|].
  split.
  { intros k Hk Hnot.
    destruct (density_table_complete tokens k Hk) as [d Hd].
    assert (Hd' : In (k, d) sorted)
      by (apply (Permutation_in _ (Permutation_sym Hperm)); exact Hd).
    rewrite <- (firstn_skipn 5 sorted) in Hd'. apply in_app_or in Hd' as [Hd'|Hd'].
    { exfalso. apply Hnot. change k with (fst (k, d)). apply in_map. exact Hd'. }
    split.
    - assert (Hlen : (5 < length sorted)%nat).
      { destruct (le_lt_dec (length sorted) 5) as [Hle|Hlt]; [|exact Hlt].
        rewrite skipn_all2 in Hd' by exact Hle. destruct Hd'. }
      rewrite length_firstn. lia.
    - intros e He. specialize (Hs2 e (k, d) He Hd').
      destruct (density_table_entry _ _ _ Hd) as [_ [Hdens _]].
      unfold ranks_before in *. simpl in *. rewrite <- Hdens. exact Hs2. }
  intros Ht. subst sorted. rewrite Ht. reflexivity.
Qed.

(** C8 as stated fails: the densities [extract_keywords] returns for a text
    with the token counts 7, 1 and 1 are 77.77777777777779, 11.11111111111111
    and 11.11111111111111 in binary64; their sum, computed in binary64 or
    exactly, is above 100. *)
Lemma density_sum_exceeds_100 :
  let kd := extract_keywords_binary64 skewed_text in
  map fst kd = [lit "data"; lit "more"; lit "test"] /\
  map snd kd = [S754_finite false 5473124547151645 (-46);
                S754_finite false 6254999482459022 (-49);
                S754_finite false 6254999482459022 (-49)] /\
  SFltb (b64_of_nat 100) (sum_binary64 (map snd kd)) = true /\
  100 < sum_Q (map b64_to_Q (map snd kd)).
Proof.
  cbv zeta. repeat split; vm_compute; reflexivity.
Qed.

(** The densities of the example input are exactly 25 in binary64 too. *)
Lemma example_density_binary64 :
  extract_keywords_binary64 (content example_input) =
  [(lit "hello", b64_of_nat 25); (lit "world", b64_of_nat 25);
   (lit "this", b64_of_nat 25); (lit "great", b64_of_nat 25)].
Proof. vm_compute. reflexivity. Qed.

(** ** The stages *)

Section PipelineFacts.
Variable send_message : str -> str -> Exn + str.
Variable float_repr : Q -> str.

(** The analysis stage always returns: a failure of the service is caught. *)
Lemma analyze_run (content title content_type : str) (w : World) :
  analyze_content_with_ai send_message content title content_type w =
  (inr (analysis_value
          (send_message analysis_system_message
             (analysis_prompt content_type title content)) content title),
   entered Analyze w).
Proof.
  unfold analyze_content_with_ai, bind, try_except, chat, ret, enter_stage.
  destruct (send_message analysis_system_message _); reflexivity.
Qed.

Lemma optimize_run (content title content_type : str) (a : AnalysisResult) (w : World) :
  optimize_content_with_ai send_message float_repr content title a content_type w =
  (match send_message optimize_system_message
           (optimize_prompt float_repr content_type title content a) with
   | inr optimized => inr (optimization_value optimized)
   | inl e => inl (optimization_failed e)
   end, entered Optimize w).
Proof.
  unfold optimize_content_with_ai, bind, try_except, chat, ret, raise, enter_stage.
  destruct (send_message optimize_system_message _); reflexivity.
Qed.

Lemma variants_run (optimized title content_type : str) (w : World) :
  generate_variants_with_ai send_message optimized title content_type w =
  (match send_message variants_system_message
           (variants_prompt content_type title optimized) with
   | inr response => inr (variants_value optimized response)
   | inl e => inl (variants_failed e)
   end, entered Vary w).
Proof.
  unfold generate_variants_with_ai, bind, try_except, chat, ret, raise, enter_stage.
  destruct (send_message variants_system_message _); reflexivity.
Qed.

(** *** The pipeline, case by case *)

Variable id : str.
Variable ci : ContentInput.
Variable w : World.

Let a := analysis_of send_message ci.
Let docs1 := update_first id (set_analysis a) (content_jobs w).
Let w1 := written docs1 (entered Analyze w).

Lemma process_run_optimize_raises (e : Exn) :
  optimize_reply send_message float_repr ci = inl e ->
  process_content_job send_message float_repr id ci w =
  (inr tt,
   written (update_first id (set_failed (exn_str (optimization_failed e)) (clock w)) docs1)
           (tick (entered Optimize w1))).
Proof.
  intros Hr. unfold optimize_reply in Hr. fold a in Hr.
  unfold process_content_job, try_except, bind.
  rewrite analyze_run. cbv beta iota.
  unfold update_one at 1. cbv beta iota.
  rewrite optimize_run.
  fold (analysis_reply send_message ci). fold (analysis_of send_message ci). fold a.
  rewrite Hr. reflexivity.
Qed.

Lemma process_run_vary_raises (o : str) (e : Exn) :
  optimize_reply send_message float_repr ci = inr o ->
  variants_reply send_message ci (strip o) = inl e ->
  let docs2 := update_first id (set_optimization (optimization_value o)) docs1 in
  process_content_job send_message float_repr id ci w =
  (inr tt,
   written (update_first id (set_failed (exn_str (variants_failed e)) (clock w)) docs2)
           (tick (entered Vary (written docs2 (entered Optimize w1))))).
Proof.
  intros Hr Hv docs2. unfold optimize_reply in Hr. fold a in Hr.
  unfold variants_reply in Hv.
  unfold process_content_job, try_except, bind.
  rewrite analyze_run. cbv beta iota.
  unfold update_one at 1. cbv beta iota.
  rewrite optimize_run.
  fold (analysis_reply send_message ci). fold (analysis_of send_message ci). fold a.
  rewrite Hr. cbv beta iota.
  unfold update_one at 1. cbv beta iota.
  rewrite variants_run. cbn [optimized_content optimization_value].
  rewrite Hv. reflexivity.
Qed.

Lemma process_run_completes (o response : str) :
  optimize_reply send_message float_repr ci = inr o ->
  variants_reply send_message ci (strip o) = inr response ->
  let docs2 := update_first id (set_optimization (optimization_value o)) docs1 in
  process_content_job send_message float_repr id ci w =
  (inr tt,
   written (update_first id (set_completed (variants_value (strip o) response) (clock w))
                         docs2)
           (tick (entered Vary (written docs2 (entered Optimize w1))))).
Proof.
  intros Hr Hv docs2. unfold optimize_reply in Hr. fold a in Hr.
  unfold variants_reply in Hv.
  unfold process_content_job, try_except, bind.
  rewrite analyze_run. cbv beta iota.
  unfold update_one at 1. cbv beta iota.
  rewrite optimize_run.
  fold (analysis_reply send_message ci). fold (analysis_of send_message ci). fold a.
  rewrite Hr. cbv beta iota.
  unfold update_one at 1. cbv beta iota.
  rewrite variants_run. cbn [optimized_content optimization_value].
  rewrite Hv. reflexivity.
Qed.
End PipelineFacts.

Lemma find_one_update_first (i : str) (set : ContentJob -> ContentJob)
    (docs : list ContentJob) :
  (forall j, job_id (set j) = job_id j) ->
  find_one i (update_first i set docs) = option_map set (find_one i docs).
Proof.
  intros Hid. induction docs as [|j docs IH]; simpl; [reflexivity|].
  destruct (decide (job_id j = i)) as [Hj|Hj]; simpl.
  - rewrite Hid. destruct (decide (job_id j = i)); [reflexivity | contradiction].
  - destruct (decide (job_id j = i)); [contradiction | exact IH].
Qed.

Lemma skipn_length_app {A} (l l' : list A) : skipn (length l) (l ++ l') = l'.
Proof. induction l; simpl; auto. Qed.

(** ** The pipeline *)

Lemma trace_of_written1 (w w0 : World) (d1 : list ContentJob) :
  history w0 = history w -> trace_of w (written d1 w0) = [d1].
Proof.
  intros H. unfold trace_of. cbn [history written]. rewrite H.
  apply skipn_length_app.
Qed.

Ltac solve_some :=
  repeat match goal with
  | |- _ /\ _ => split
  | |- is_Some (Some _) => eexists; reflexivity
  | H : is_Some None |- _ => destruct H as [? H]; discriminate H
  | |- _ -> _ => intros ?
  | H : ?x = ?y |- _ => discriminate H
  end.

Ltac run_world :=
  unfold trace_of, stages_of;
  cbn [history stages_run content_jobs clock written tick entered snd fst];
  rewrite <- ?app_assoc, ?skipn_length_app; cbn [app].

Ltac finish_run Hfind :=
  cbn [map]; unfold job_shape;
  split;
  [ repeat constructor;
    rewrite !find_one_update_first, Hfind by reflexivity;
    eexists; (split; [reflexivity|]);
    (split; [unfold fields_in_order; cbn; solve_some | reflexivity])
  | rewrite !find_one_update_first, Hfind by reflexivity; split; reflexivity ].

(** C1. For a job as [submit_content] stored it, the pipeline sets the result
    fields in order: every state the job goes through has each field present
    only if the fields left of it (analysis, optimization, variants) are
    present, is completed only with all three, and holds the same analysis;
    the job goes through analysis, then optimization, then variants with
    status completed; when the optimize stage raises, the job becomes failed
    with the analysis only and the vary stage is not entered; when the vary
    stage raises, the job becomes failed with analysis and optimization. *)
Theorem pipeline_fields_in_order
    (send_message : str -> str -> Exn + str) (float_repr : Q -> str)
    (id : str) (ci : ContentInput) (w : World) (j0 : ContentJob) :
  find_one id (content_jobs w) = Some j0 ->
  fresh_job j0 ->
  let w' := snd (process_content_job send_message float_repr id ci w) in
  let shapes := map (job_shape id) (trace_of w w') in
  Forall (fun docs => exists j,
            find_one id docs = Some j /\ fields_in_order j /\
            analysis j = Some (analysis_of send_message ci))
         (trace_of w w') /\
  match optimize_reply send_message float_repr ci with
  | inl _ =>
      shapes = [Some (true, false, false, processing); Some (true, false, false, failed)] /\
      stages_of w w' = [Analyze; Optimize]
  | inr o =>
      match variants_reply send_message ci (strip o) with
      | inl _ =>
          shapes = [Some (true, false, false, processing);
                    Some (true, true, false, processing);
                    Some (true, true, false, failed)] /\
          stages_of w w' = [Analyze; Optimize; Vary]
      | inr _ =>
          shapes = [Some (true, false, false, processing);
                    Some (true, true, false, processing);
                    Some (true, true, true, completed)] /\
          stages_of w w' = [Analyze; Optimize; Vary]
      end
  end.
Proof.
  intros Hfind Hfresh. cbv zeta.
  destruct j0 as [jid jt joc jct jst jan jop jva jcr jco jer].
  destruct Hfresh as (Hst & Han & Hop & Hva & Hco & Her).
  cbn [status analysis optimization variants completed_at job_error] in *. subst.
  destruct (optimize_reply send_message float_repr ci) as [e|o] eqn:Hr;
    [|destruct (variants_reply send_message ci (strip o)) as [e|v] eqn:Hv].
  - rewrite (process_run_optimize_raises _ _ id ci w e Hr). run_world.
    finish_run Hfind.
  - rewrite (process_run_vary_raises _ _ id ci w o e Hr Hv). run_world.
    finish_run Hfind.
  - rewrite (process_run_completes _ _ id ci w o v Hr Hv). run_world.
    finish_run Hfind.
Qed.

Lemma find_one_app (i : str) (docs : list ContentJob) (j : ContentJob) :
  find_one i docs = None ->
  find_one i (docs ++ [j]) = if decide (job_id j = i) then Some j else None.
Proof.
  induction docs as [|d docs IH]; simpl; [reflexivity|].
  destruct (decide (job_id d = i)); [discriminate | exact IH].
Qed.

(** [submit_content] with an identifier that is not in use stores a fresh
    job under it and answers with the identifier and the status processing. *)
Lemma submit_content_stores (new_id : str) (ci : ContentInput) (w : World) :
  find_one new_id (content_jobs w) = None ->
  fst (submit_content new_id ci w) = inr (new_id, processing) /\
  exists j, find_one new_id (content_jobs (snd (submit_content new_id ci w))) = Some j /\
            fresh_job j /\ original_content j = content ci /\ job_title j = title ci.
Proof.
  intros Hnew. split; [reflexivity|].
  unfold submit_content, bind, utcnow, insert_one, ret.
  cbn [fst snd content_jobs written tick clock].
  rewrite find_one_app by exact Hnew. cbn [job_id].
  destruct (decide (new_id = new_id)); [|contradiction].
  eexists. split; [reflexivity|]. repeat split.
Qed.

Lemma submitted_job_found : find_one job1 (content_jobs submitted_world) = Some submitted_job.
Proof. reflexivity. Qed.

Lemma submitted_job_fresh : fresh_job submitted_job.
Proof. repeat split. Qed.

(** C1 at work: the example input, submitted and run with a service that
    always answers, goes through the three states and ends completed. *)
Lemma pipeline_fields_in_order_witness :
  let w' := snd (process_content_job service_echo repr_floor job1 example_input
                                     submitted_world) in
  Forall (fun docs => exists j,
            find_one job1 docs = Some j /\ fields_in_order j /\
            analysis j = Some (analysis_of service_echo example_input))
         (trace_of submitted_world w') /\
  map (job_shape job1) (trace_of submitted_world w') =
    [Some (true, false, false, processing);
     Some (true, true, false, processing);
     Some (true, true, true, completed)] /\
  stages_of submitted_world w' = [Analyze; Optimize; Vary].
Proof.
  exact (pipeline_fields_in_order service_echo repr_floor job1 example_input
           submitted_world submitted_job submitted_job_found submitted_job_fresh).
Defined.

(** C2. When the service raises during the optimize stage, the job ends
    failed, with the analysis of stage 1 kept, without optimization and
    variants, with the non-empty description of the error and a completion time
    recorded; the vary stage is not entered. *)
Theorem optimize_failure_keeps_analysis
    (send_message : str -> str -> Exn + str) (float_repr : Q -> str)
    (id : str) (ci : ContentInput) (w : World) (j0 : ContentJob) (e : Exn) :
  find_one id (content_jobs w) = Some j0 ->
  fresh_job j0 ->
  optimize_reply send_message float_repr ci = inl e ->
  let w' := snd (process_content_job send_message float_repr id ci w) in
  exists j msg t,
    find_one id (content_jobs w') = Some j /\
    status j = failed /\
    analysis j = Some (analysis_of send_message ci) /\
    optimization j = None /\
    variants j = None /\
    job_error j = Some msg /\
    msg = lit "500: Optimization failed: " ++ exn_str e /\
    msg <> [] /\
    completed_at j = Some t /\
    stages_of w w' = [Analyze; Optimize].
Proof.
  intros Hfind Hfresh Hr. cbv zeta.
  destruct Hfresh as (Hst & Han & Hop & Hva & Hco & Her).
  rewrite (process_run_optimize_raises _ _ id ci w e Hr). run_world.
  rewrite !find_one_update_first, Hfind by reflexivity.
  eexists _, _, _. split; [reflexivity|]. cbn.
  repeat split; try assumption; try reflexivity. discriminate.
Qed.

Lemma service_analysis_only_optimize :
  optimize_reply service_analysis_only repr_floor example_input =
  inl (Exception (lit "rate limited")).
Proof. reflexivity. Qed.

(** C2 at work: the example input with a service that answers the analysis
    only. *)
Lemma optimize_failure_keeps_analysis_witness :
  let w' := snd (process_content_job service_analysis_only repr_floor job1 example_input
                                     submitted_world) in
  exists j msg t,
    find_one job1 (content_jobs w') = Some j /\
    status j = failed /\
    analysis j = Some (analysis_of service_analysis_only example_input) /\
    optimization j = None /\
    variants j = None /\
    job_error j = Some msg /\
    msg = lit "500: Optimization failed: " ++ lit "rate limited" /\
    msg <> [] /\
    completed_at j = Some t /\
    stages_of submitted_world w' = [Analyze; Optimize].
Proof.
  exact (optimize_failure_keeps_analysis service_analysis_only repr_floor job1
           example_input submitted_world submitted_job (Exception (lit "rate limited"))
           submitted_job_found submitted_job_fresh service_analysis_only_optimize).
Defined.

(** C3. When the service raises during the analyze stage, the stage still
    returns an analysis, with the tone "Unable to analyze" and the three
    fixed fallback suggestions; the job is still processing once that
    analysis is stored, the optimize stage is entered next, and the job ends
    failed only when the optimize or the vary stage raises. *)
Theorem analyze_failure_is_absorbed
    (send_message : str -> str -> Exn + str) (float_repr : Q -> str)
    (id : str) (ci : ContentInput) (w : World) (j0 : ContentJob) (e : Exn) :
  analysis_reply send_message ci = inl e ->
  find_one id (content_jobs w) = Some j0 ->
  fresh_job j0 ->
  let a := analysis_of send_message ci in
  let w' := snd (process_content_job send_message float_repr id ci w) in
  analyze_content_with_ai send_message (content ci) (title ci) (content_type ci) w
    = (inr a, entered Analyze w) /\
  tone a = lit "Unable to analyze" /\
  suggestions a = [lit "Improve readability"; lit "Enhance SEO"; lit "Strengthen engagement"] /\
  (exists docs rest j,
     trace_of w w' = docs :: rest /\ find_one id docs = Some j /\
     analysis j = Some a /\ status j = processing) /\
  (exists rest, stages_of w w' = Analyze :: Optimize :: rest) /\
  (forall j, find_one id (content_jobs w') = Some j -> status j = failed ->
     (exists e', optimize_reply send_message float_repr ci = inl e') \/
     (exists o e', optimize_reply send_message float_repr ci = inr o /\
                   variants_reply send_message ci (strip o) = inl e')).
Proof.
  intros Ha Hfind Hfresh. cbv zeta.
  destruct Hfresh as (Hst & Han & Hop & Hva & Hco & Her).
  split; [apply analyze_run|].
  split; [unfold analysis_of; rewrite Ha; reflexivity|].
  split; [unfold analysis_of; rewrite Ha; reflexivity|].
  destruct (optimize_reply send_message float_repr ci) as [e2|o] eqn:Hr;
    [|destruct (variants_reply send_message ci (strip o)) as [e3|v] eqn:Hv].
  - rewrite (process_run_optimize_raises _ _ id ci w e2 Hr). run_world.
    split; [|split; [eexists; reflexivity | intros; left; eexists; reflexivity]].
    eexists _, _, _. split; [reflexivity|].
    rewrite find_one_update_first, Hfind by reflexivity.
    split; [reflexivity|]. split; [reflexivity | exact Hst].
  - rewrite (process_run_vary_raises _ _ id ci w o e3 Hr Hv). run_world.
    split; [|split; [eexists; reflexivity | intros; right; eexists _, _; split; [reflexivity | exact Hv]]].
    eexists _, _, _. split; [reflexivity|].
    rewrite find_one_update_first, Hfind by reflexivity.
    split; [reflexivity|]. split; [reflexivity | exact Hst].
  - rewrite (process_run_completes _ _ id ci w o v Hr Hv). run_world.
    split; [|split; [eexists; reflexivity|]].
    + eexists _, _, _. split; [reflexivity|].
      rewrite find_one_update_first, Hfind by reflexivity.
      split; [reflexivity|]. split; [reflexivity | exact Hst].
    + intros j. rewrite !find_one_update_first, Hfind by reflexivity.
      cbn. intros Hj Hs. injection Hj as <-. discriminate Hs.
Qed.

Lemma service_down_analysis :
  analysis_reply service_down example_input = inl (Exception (lit "connection refused")).
Proof. reflexivity. Qed.

(** C3 at work: the example input with a service that is down. *)
Lemma analyze_failure_is_absorbed_witness :
  let a := analysis_of service_down example_input in
  let w' := snd (process_content_job service_down repr_floor job1 example_input
                                     submitted_world) in
  analyze_content_with_ai service_down (content example_input) (title example_input)
    (content_type example_input) submitted_world = (inr a, entered Analyze submitted_world) /\
  tone a = lit "Unable to analyze" /\
  suggestions a = [lit "Improve readability"; lit "Enhance SEO"; lit "Strengthen engagement"] /\
  (exists docs rest j,
     trace_of submitted_world w' = docs :: rest /\ find_one job1 docs = Some j /\
     analysis j = Some a /\ status j = processing) /\
  (exists rest, stages_of submitted_world w' = Analyze :: Optimize :: rest) /\
  (forall j, find_one job1 (content_jobs w') = Some j -> status j = failed ->
     (exists e', optimize_reply service_down repr_floor example_input = inl e') \/
     (exists o e', optimize_reply service_down repr_floor example_input = inr o /\
                   variants_reply service_down example_input (strip o) = inl e')).
Proof.
  exact (analyze_failure_is_absorbed service_down repr_floor job1 example_input
           submitted_world submitted_job (Exception (lit "connection refused"))
           service_down_analysis submitted_job_found submitted_job_fresh).
Defined.

(** ** The analysis of a response *)

(** C5 as stated fails: for the example input the analysis counts three
    segments, and the keyword density has the four entries hello, world, this
    and great. *)
Lemma example_analysis_counterexample :
  exists a,
    fst (analyze_content_with_ai service_down (content example_input)
           (title example_input) (content_type example_input) initial_world) = inr a /\
    sentence_count a = 3%nat /\
    map fst (keyword_density a) = [lit "hello"; lit "world"; lit "this"; lit "great"] /\
    ~ (word_count a = 5%nat /\ sentence_count a = 2%nat /\
       (forall k, In k (map fst (keyword_density a)) <-> k = lit "this" \/ k = lit "great") /\
       Forall (fun kv => snd kv == 50) (keyword_density a)).
Proof.
  rewrite analyze_run. eexists. split; [reflexivity|].
  split; [vm_compute; reflexivity|]. split; [vm_compute; reflexivity|].
  intros (_ & H & _). vm_compute in H. discriminate H.
Qed.

(** C5, amended. For the title "Hello World", the content "Hello world. This
    is great!" and the content type "article", whatever the service replies,
    the analysis has word_count 5 and a keyword density with exactly the
    entries hello, world, this and great, each with density 25. *)
Theorem example_analysis_metrics (send_message : str -> str -> Exn + str) (w : World) :
  exists a w',
    analyze_content_with_ai send_message (lit "Hello world. This is great!")
      (lit "Hello World") (lit "article") w = (inr a, w') /\
    word_count a = 5%nat /\
    map fst (keyword_density a) = [lit "hello"; lit "world"; lit "this"; lit "great"] /\
    Forall (fun kv => snd kv == 25) (keyword_density a).
Proof.
  rewrite analyze_run. eexists _, _. split; [reflexivity|].
  cbn [word_count keyword_density analysis_value].
  split; [vm_compute; reflexivity|]. split; [vm_compute; reflexivity|].
  assert (H : extract_keywords (lit "Hello world. This is great!") =
              [(lit "hello", 100 # 4); (lit "world", 100 # 4);
               (lit "this", 100 # 4); (lit "great", 100 # 4)])
    by (vm_compute; reflexivity).
  rewrite H. repeat constructor.
Qed.

(** C6 as stated fails: a response with one numbered line yields one
    suggestion, not three. *)
Lemma one_suggestion_counterexample :
  exists a,
    fst (analyze_content_with_ai (service_const reply_one_line) (content example_input)
           (title example_input) (content_type example_input) initial_world) = inr a /\
    suggestions a = [lit "Shorten the introduction"] /\
    length (suggestions a) <> 3%nat.
Proof.
  rewrite analyze_run. eexists. split; [reflexivity|].
  split; [vm_compute; reflexivity|]. vm_compute. discriminate.
Qed.

Lemma parse_suggestions_length (response : str) :
  length (parse_suggestions response) =
  match length (re_findall re_numbered response) with
  | O => 3%nat
  | S n => Nat.min (S n) 3
  end.
Proof.
  unfold parse_suggestions. cbv zeta.
  destruct (re_findall re_numbered response) as [|s l]; [reflexivity|].
  rewrite length_firstn. change (length (s :: l)) with (S (length l)). cbv iota. lia.
Qed.

(** ** Statistics *)

Lemma count_documents_all (docs : list ContentJob) :
  count_documents (fun _ => true) docs = length docs.
Proof.
  unfold count_documents. induction docs as [|j docs IH]; simpl; [reflexivity|].
  rewrite IH. reflexivity.
Qed.

Lemma count_documents_partition (docs : list ContentJob) :
  (count_documents (status_is completed) docs
   + count_documents (status_is processing) docs
   + count_documents (status_is failed) docs)%nat = length docs.
Proof.
  unfold count_documents, status_is. induction docs as [|j docs IH]; [reflexivity|].
  cbn [List.filter].
  destruct (status j);
    repeat match goal with
    | |- context [decide (?a = ?b)] =>
        destruct (decide (a = b)); try discriminate; try contradiction
    end; cbn [length]; lia.
Qed.

Lemma get_stats_unfold (docs : list ContentJob) :
  get_stats docs = stats_cursor_order docs.
Proof.
  unfold get_stats, stats_cursor_order. cbv zeta.
  rewrite count_documents_all.
  destruct (firstn 100 (List.filter (status_is completed) docs)); reflexivity.
Qed.

(** C9 as stated fails: in a collection of 101 completed jobs listed oldest
    first, the averages are taken over the 100 oldest, not the 100 most
    recent. *)
Lemma stats_sample_counterexample :
  avg_readability_score (get_stats old_first_store) == 1 /\
  avg_readability_score (stats_most_recent old_first_store) == 0 /\
  ~ avg_readability_score (get_stats old_first_store)
    == avg_readability_score (stats_most_recent old_first_store).
Proof.
  assert (H1 : avg_readability_score (get_stats old_first_store) == 1)
    by (vm_compute; reflexivity).
  assert (H2 : avg_readability_score (stats_most_recent old_first_store) == 0)
    by (vm_compute; reflexivity).
  split; [exact H1|]. split; [exact H2|]. rewrite H1, H2. discriminate.
Qed.

(** C9, amended. The statistics are the number of jobs, the numbers of
    completed, processing and failed jobs, which add up to the total, and the
    averages, rounded to two decimals, of the readability and SEO scores over
    the first 100 completed jobs in the order the collection lists them; on
    an empty collection the counts are 0 and both averages are 0. *)
Theorem stats_over_first_hundred (docs : list ContentJob) :
  get_stats docs = stats_cursor_order docs /\
  total_jobs (get_stats docs) = length docs /\
  (completed_jobs (get_stats docs) + processing_jobs (get_stats docs)
   + failed_jobs (get_stats docs))%nat = total_jobs (get_stats docs) /\
  total_jobs (get_stats []) = 0%nat /\
  completed_jobs (get_stats []) = 0%nat /\
  processing_jobs (get_stats []) = 0%nat /\
  failed_jobs (get_stats []) = 0%nat /\
  avg_readability_score (get_stats []) == 0 /\
  avg_seo_score (get_stats []) == 0.
Proof.
  split; [apply get_stats_unfold|].
  rewrite get_stats_unfold. cbn [total_jobs completed_jobs processing_jobs failed_jobs
                                  stats_cursor_order].
  split; [reflexivity|]. split; [apply count_documents_partition|].
  repeat split; vm_compute; reflexivity.
Qed.

(** * Further properties of the code *)

(** ** The routes that read and delete jobs *)

(** X1. A job submitted under an identifier that is not in use is returned
    by [get_job_status] as it was stored: status processing, the title,
    content and content type of the input, no result, no completion time, no
    error, created at the time of the submission; reading does not change the
    world. *)
Theorem submit_then_get (new_id : str) (ci : ContentInput) (w : World) :
  find_one new_id (content_jobs w) = None ->
  let w1 := snd (submit_content new_id ci w) in
  exists j,
    get_job_status new_id w1 = (inr j, w1) /\
    job_id j = new_id /\ status j = processing /\
    job_title j = title ci /\ original_content j = content ci /\
    job_content_type j = content_type ci /\
    analysis j = None /\ optimization j = None /\ variants j = None /\
    completed_at j = None /\ job_error j = None /\ created_at j = clock w.
Proof.
  intros Hnew w1. subst w1.
  unfold get_job_status, bind, find_one_doc.
  unfold submit_content, bind, utcnow, insert_one, ret.
  cbn [fst snd content_jobs written tick clock].
  rewrite find_one_app by exact Hnew. cbn [job_id].
  destruct (decide (new_id = new_id)); [|contradiction].
  eexists. split; [reflexivity|]. repeat split.
Qed.

Lemma submit_then_get_witness :
  let w1 := snd (submit_content job1 example_input initial_world) in
  exists j,
    get_job_status job1 w1 = (inr j, w1) /\
    job_id j = job1 /\ status j = processing /\
    job_title j = title example_input /\ original_content j = content example_input /\
    job_content_type j = content_type example_input /\
    analysis j = None /\ optimization j = None /\ variants j = None /\
    completed_at j = None /\ job_error j = None /\ created_at j = clock initial_world.
Proof. exact (submit_then_get job1 example_input initial_world eq_refl). Defined.

Lemma get_job_status_missing (job_id : str) (w : World) :
  find_one job_id (content_jobs w) = None ->
  fst (get_job_status job_id w) = inl (HTTPException 404 (lit "Job not found")).
Proof.
  intros H. unfold get_job_status, bind, find_one_doc, raise, ret. rewrite H. reflexivity.
Qed.

Lemma find_one_delete_first_other (i i' : str) (docs : list ContentJob) :
  i' <> i -> find_one i' (delete_first i docs) = find_one i' docs.
Proof.
  intros Hne. induction docs as [|j docs IH]; simpl; [reflexivity|].
  destruct (decide (job_id j = i)) as [Hj|Hj]; simpl.
  - destruct (decide (job_id j = i')); [congruence | reflexivity].
  - destruct (decide (job_id j = i')); [reflexivity | exact IH].
Qed.

Lemma delete_first_not_found (i : str) (docs : list ContentJob) :
  find_one i docs = None -> delete_first i docs = docs.
Proof.
  induction docs as [|j docs IH]; simpl; [reflexivity|].
  destruct (decide (job_id j = i)); [discriminate|].
  intros H. rewrite IH by exact H. reflexivity.
Qed.

Lemma delete_first_length (i : str) (docs : list ContentJob) (j : ContentJob) :
  find_one i docs = Some j -> S (length (delete_first i docs)) = length docs.
Proof.
  induction docs as [|d docs IH]; simpl; [discriminate|].
  destruct (decide (job_id d = i)); [reflexivity|].
  intros H. simpl. rewrite IH by exact H. reflexivity.
Qed.

Lemma docs_with_id_delete_first (i : str) (docs : list ContentJob) :
  docs_with_id i (delete_first i docs) = tl (docs_with_id i docs).
Proof.
  unfold docs_with_id. induction docs as [|d docs IH]; simpl; [reflexivity|].
  destruct (decide (job_id d = i)) as [Hd|Hd]; simpl.
  - reflexivity.
  - destruct (decide (job_id d = i)); [contradiction | exact IH].
Qed.

Lemma find_one_docs_with_id (i : str) (docs : list ContentJob) :
  find_one i docs = hd_error (docs_with_id i docs).
Proof.
  unfold docs_with_id. induction docs as [|d docs IH]; simpl; [reflexivity|].
  destruct (decide (job_id d = i)); [reflexivity | exact IH].
Qed.

(** X3. Deleting an identifier that no document has raises the 404 error
    "Job not found" and leaves the collection as it was. *)
Theorem delete_job_not_found (job_id : str) (w : World) :
  find_one job_id (content_jobs w) = None ->
  fst (delete_job job_id w) = inl (HTTPException 404 (lit "Job not found")) /\
  content_jobs (snd (delete_job job_id w)) = content_jobs w.
Proof.
  intros H. unfold delete_job, bind, delete_one, raise. rewrite H.
  cbn [fst snd Nat.eqb content_jobs written]. split; [reflexivity|].
  apply delete_first_not_found. exact H.
Qed.

Lemma delete_job_not_found_witness :
  fst (delete_job job1 two_jobs_world) = inl (HTTPException 404 (lit "Job not found")) /\
  content_jobs (snd (delete_job job1 two_jobs_world)) = content_jobs two_jobs_world.
Proof. exact (delete_job_not_found job1 two_jobs_world eq_refl). Defined.

(** X4. Deleting an identifier that a document has answers "Job deleted
    successfully" and removes the first document with that identifier and no
    other: the collection has one document less, every other identifier is
    looked up as before, and when the identifier was that of one document
    only, [get_job_status] raises the 404 error afterwards. *)
Theorem delete_job_removes (job_id : str) (w : World) (j : ContentJob) :
  find_one job_id (content_jobs w) = Some j ->
  let w' := snd (delete_job job_id w) in
  fst (delete_job job_id w) = inr (lit "Job deleted successfully") /\
  S (length (content_jobs w')) = length (content_jobs w) /\
  (forall other, other <> job_id ->
     find_one other (content_jobs w') = find_one other (content_jobs w)) /\
  docs_with_id job_id (content_jobs w') = tl (docs_with_id job_id (content_jobs w)) /\
  (docs_with_id job_id (content_jobs w) = [j] ->
   fst (get_job_status job_id w') = inl (HTTPException 404 (lit "Job not found"))).
Proof.
  intros H w'. subst w'. unfold delete_job, bind, delete_one, ret. rewrite H.
  cbn [fst snd Nat.eqb content_jobs written].
  split; [reflexivity|]. split; [apply (delete_first_length _ _ j H)|].
  split; [intros other Hne; apply find_one_delete_first_other; exact Hne|].
  split; [apply docs_with_id_delete_first|].
  intros Hone. apply get_job_status_missing. cbn [content_jobs written].
  rewrite find_one_docs_with_id, docs_with_id_delete_first, Hone. reflexivity.
Qed.

Lemma delete_job_removes_witness :
  let w' := snd (delete_job (lit "2") two_jobs_world) in
  fst (delete_job (lit "2") two_jobs_world) = inr (lit "Job deleted successfully") /\
  S (length (content_jobs w')) = length (content_jobs two_jobs_world) /\
  (forall other, other <> lit "2" ->
     find_one other (content_jobs w') = find_one other (content_jobs two_jobs_world)) /\
  docs_with_id (lit "2") (content_jobs w') =
    tl (docs_with_id (lit "2") (content_jobs two_jobs_world)) /\
  (docs_with_id (lit "2") (content_jobs two_jobs_world) = [scored_job 2 50] ->
   fst (get_job_status (lit "2") w') = inl (HTTPException 404 (lit "Job not found"))).
Proof. exact (delete_job_removes (lit "2") two_jobs_world (scored_job 2 50) eq_refl). Defined.

(** ** Listing the jobs *)

Section SortByTick.
Context {A : Type} (key : A -> nat).

Lemma insert_desc_nat_perm (x : A) (l : list A) :
  Permutation (insert_desc Nat.ltb key x l) (x :: l).
Proof.
  induction l as [|y t IH]; simpl; [reflexivity|].
  destruct (key x <? key y)%nat; [|reflexivity].
  rewrite IH. apply perm_swap.
Qed.

Lemma sorted_desc_nat_perm (l : list A) : Permutation (sorted_desc Nat.ltb key l) l.
Proof.
  induction l as [|x t IH]; simpl; [reflexivity|].
  rewrite insert_desc_nat_perm, IH. reflexivity.
Qed.

Lemma insert_desc_nat_sorted (x : A) (l : list A) :
  StronglySorted (fun a b => (key b <= key a)%nat) l ->
  StronglySorted (fun a b => (key b <= key a)%nat) (insert_desc Nat.ltb key x l).
Proof.
  induction l as [|y t IH]; intros Hs; simpl; [repeat constructor|].
  apply StronglySorted_inv in Hs as [Hs Hy].
  destruct (key x <? key y)%nat eqn:E.
  - apply Nat.ltb_lt in E. constructor; [apply IH; exact Hs|].
    rewrite List.Forall_forall in *. intros z Hz.
    apply (Permutation_in _ (insert_desc_nat_perm x t)) in Hz as [<-|Hz]; [lia|].
    apply Hy. exact Hz.
  - apply Nat.ltb_ge in E. constructor; [constructor; assumption|].
    constructor; [exact E|].
    rewrite List.Forall_forall in *. intros z Hz. specialize (Hy z Hz). lia.
Qed.

Lemma sorted_desc_nat_sorted (l : list A) :
  StronglySorted (fun a b => (key b <= key a)%nat) (sorted_desc Nat.ltb key l).
Proof.
  induction l as [|x t IH]; simpl; [constructor|].
  apply insert_desc_nat_sorted. exact IH.
Qed.
End SortByTick.

(** X5. [get_all_jobs] returns the [limit] newest jobs, or all of them when
    there are fewer: the jobs returned are in the order newest first, they and
    the jobs left out make up the collection, no job left out is newer than
    a job returned, and the world is unchanged. *)
Theorem get_all_jobs_newest_first (limit : nat) (w : World) :
  exists jobs rest,
    get_all_jobs limit w = (inr jobs, w) /\
    length jobs = Nat.min limit (length (content_jobs w)) /\
    StronglySorted (fun a b => (created_at b <= created_at a)%nat) jobs /\
    Permutation (jobs ++ rest) (content_jobs w) /\
    (forall a b, In a jobs -> In b rest -> (created_at b <= created_at a)%nat).
Proof.
  set (sorted := sorted_desc Nat.ltb created_at (content_jobs w)).
  exists (firstn limit sorted), (skipn limit sorted).
  assert (Hs : StronglySorted (fun a b => (created_at b <= created_at a)%nat)
                 (firstn limit sorted ++ skipn limit sorted))
    by (rewrite firstn_skipn; apply sorted_desc_nat_sorted).
  apply StronglySorted_app_inv in Hs as [Hs1 Hs2].
  split; [reflexivity|]. split.
  - rewrite length_firstn. f_equal.
    apply Permutation_length, sorted_desc_nat_perm.
  - split; [exact Hs1|]. split; [|exact Hs2].
    rewrite firstn_skipn. apply sorted_desc_nat_perm.
Qed.

(** ** What a run of the pipeline does to the collection *)

Lemma update_first_compose (i : str) (f g : ContentJob -> ContentJob)
    (docs : list ContentJob) :
  (forall j, job_id (f j) = job_id j) ->
  update_first i g (update_first i f docs) = update_first i (fun j => g (f j)) docs.
Proof.
  intros Hf. induction docs as [|d docs IH]; simpl; [reflexivity|].
  destruct (decide (job_id d = i)) as [Hd|Hd]; simpl.
  - rewrite Hf. destruct (decide (job_id d = i)); [reflexivity | contradiction].
  - destruct (decide (job_id d = i)); [contradiction|]. rewrite IH. reflexivity.
Qed.

Lemma update_first_not_found (i : str) (f : ContentJob -> ContentJob)
    (docs : list ContentJob) :
  find_one i docs = None -> update_first i f docs = docs.
Proof.
  induction docs as [|d docs IH]; simpl; [reflexivity|].
  destruct (decide (job_id d = i)); [discriminate|].
  intros H. rewrite IH by exact H. reflexivity.
Qed.

Lemma update_first_length (i : str) (f : ContentJob -> ContentJob)
    (docs : list ContentJob) :
  length (update_first i f docs) = length docs.
Proof.
  induction docs as [|d docs IH]; simpl; [reflexivity|].
  destruct (decide (job_id d = i)); simpl; [reflexivity|]. rewrite IH. reflexivity.
Qed.

Lemma update_first_ids (i : str) (f : ContentJob -> ContentJob)
    (docs : list ContentJob) :
  (forall j, job_id (f j) = job_id j) ->
  map job_id (update_first i f docs) = map job_id docs.
Proof.
  intros Hf. induction docs as [|d docs IH]; simpl; [reflexivity|].
  destruct (decide (job_id d = i)); simpl; [rewrite Hf; reflexivity|].
  rewrite IH. reflexivity.
Qed.

Lemma find_one_update_first_other (i other : str) (f : ContentJob -> ContentJob)
    (docs : list ContentJob) :
  (forall j, job_id (f j) = job_id j) -> other <> i ->
  find_one other (update_first i f docs) = find_one other docs.
Proof.
  intros Hf Hne. induction docs as [|d docs IH]; simpl; [reflexivity|].
  destruct (decide (job_id d = i)) as [Hd|Hd]; simpl.
  - rewrite Hf. destruct (decide (job_id d = other)); [congruence | reflexivity].
  - destruct (decide (job_id d = other)); [reflexivity | exact IH].
Qed.

Lemma final_update_id (send_message : str -> str -> Exn + str) (float_repr : Q -> str)
    (ci : ContentInput) (t : nat) (j : ContentJob) :
  job_id (final_update send_message float_repr ci t j) = job_id j.
Proof.
  unfold final_update. cbv zeta.
  destruct (optimize_reply send_message float_repr ci) as [e|o]; [reflexivity|].
  destruct (variants_reply send_message ci (strip o)); reflexivity.
Qed.

(** A run of the pipeline returns without an exception, reads the clock once
    and applies [final_update] to the first document of its identifier. *)
Lemma process_content_job_effect
    (send_message : str -> str -> Exn + str) (float_repr : Q -> str)
    (id : str) (ci : ContentInput) (w : World) :
  fst (process_content_job send_message float_repr id ci w) = inr tt /\
  content_jobs (snd (process_content_job send_message float_repr id ci w)) =
    update_first id (final_update send_message float_repr ci (clock w)) (content_jobs w) /\
  clock (snd (process_content_job send_message float_repr id ci w)) = S (clock w).
Proof.
  unfold final_update. cbv zeta.
  destruct (optimize_reply send_message float_repr ci) as [e|o] eqn:Hr;
    [|destruct (variants_reply send_message ci (strip o)) as [e|v] eqn:Hv].
  - rewrite (process_run_optimize_raises _ _ id ci w e Hr).
    cbn [fst snd content_jobs clock written tick entered].
    rewrite !update_first_compose by reflexivity. auto.
  - rewrite (process_run_vary_raises _ _ id ci w o e Hr Hv).
    cbn [fst snd content_jobs clock written tick entered].
    rewrite !update_first_compose by reflexivity. auto.
  - rewrite (process_run_completes _ _ id ci w o v Hr Hv).
    cbn [fst snd content_jobs clock written tick entered].
    rewrite !update_first_compose by reflexivity. auto.
Qed.

(** X6. Whether the service replies to a call or raises an [Exception] in
    it, a run of the pipeline touches the document of its own job only: the
    collection keeps the identifiers of its documents in their order, every
    other identifier is looked up as before, and no document is added or
    removed. *)
Theorem pipeline_isolated
    (send_message : str -> str -> Exn + str) (float_repr : Q -> str)
    (id : str) (ci : ContentInput) (w : World) :
  let w' := snd (process_content_job send_message float_repr id ci w) in
  map job_id (content_jobs w') = map job_id (content_jobs w) /\
  length (content_jobs w') = length (content_jobs w) /\
  (forall other, other <> id ->
     find_one other (content_jobs w') = find_one other (content_jobs w)).
Proof.
  cbv zeta.
  destruct (process_content_job_effect send_message float_repr id ci w) as (_ & H2 & _).
  rewrite H2. split; [|split].
  - apply update_first_ids. intros j. apply final_update_id.
  - apply update_first_length.
  - intros other Hne. apply find_one_update_first_other; [|exact Hne].
    intros j. apply final_update_id.
Qed.

(** X7. When no document has the identifier of the job, for instance because
    the job was deleted in the meantime, a run of the pipeline still enters
    the stages but leaves the collection as it was. *)
Theorem pipeline_without_job
    (send_message : str -> str -> Exn + str) (float_repr : Q -> str)
    (id : str) (ci : ContentInput) (w : World) :
  find_one id (content_jobs w) = None ->
  let w' := snd (process_content_job send_message float_repr id ci w) in
  content_jobs w' = content_jobs w /\
  (exists rest, stages_of w w' = Analyze :: Optimize :: rest).
Proof.
  intros Hnone. cbv zeta. split.
  - destruct (process_content_job_effect send_message float_repr id ci w) as (_ & H2 & _).
    rewrite H2. apply update_first_not_found. exact Hnone.
  - destruct (optimize_reply send_message float_repr ci) as [e|o] eqn:Hr;
      [|destruct (variants_reply send_message ci (strip o)) as [e|v] eqn:Hv].
    + rewrite (process_run_optimize_raises _ _ id ci w e Hr). run_world.
      eexists. reflexivity.
    + rewrite (process_run_vary_raises _ _ id ci w o e Hr Hv). run_world.
      eexists. reflexivity.
    + rewrite (process_run_completes _ _ id ci w o v Hr Hv). run_world.
      eexists. reflexivity.
Qed.

Lemma pipeline_without_job_witness :
  let w' := snd (process_content_job service_echo repr_floor job1 example_input
                                     two_jobs_world) in
  content_jobs w' = content_jobs two_jobs_world /\
  (exists rest, stages_of two_jobs_world w' = Analyze :: Optimize :: rest).
Proof.
  exact (pipeline_without_job service_echo repr_floor job1 example_input
           two_jobs_world eq_refl).
Defined.

(** X8. When the service raises during the vary stage, the job ends failed
    with the analysis and the optimization of the earlier stages kept, without
    variants, with the error text "500: Variant generation failed: " followed
    by the description of the exception, and with a completion time. *)
Theorem vary_failure_keeps_results
    (send_message : str -> str -> Exn + str) (float_repr : Q -> str)
    (id : str) (ci : ContentInput) (w : World) (j0 : ContentJob) (o : str) (e : Exn) :
  find_one id (content_jobs w) = Some j0 ->
  fresh_job j0 ->
  optimize_reply send_message float_repr ci = inr o ->
  variants_reply send_message ci (strip o) = inl e ->
  let w' := snd (process_content_job send_message float_repr id ci w) in
  exists j,
    find_one id (content_jobs w') = Some j /\
    status j = failed /\
    analysis j = Some (analysis_of send_message ci) /\
    optimization j = Some (optimization_value o) /\
    variants j = None /\
    job_error j = Some (lit "500: Variant generation failed: " ++ exn_str e) /\
    completed_at j = Some (clock w) /\
    stages_of w w' = [Analyze; Optimize; Vary].
Proof.
  intros Hfind Hfresh Hr Hv. cbv zeta.
  destruct Hfresh as (Hst & Han & Hop & Hva & Hco & Her).
  rewrite (process_run_vary_raises _ _ id ci w o e Hr Hv). run_world.
  rewrite !find_one_update_first, Hfind by reflexivity.
  eexists. split; [reflexivity|]. cbn.
  repeat split; try assumption; reflexivity.
Qed.

Lemma vary_failure_keeps_results_witness :
  let w' := snd (process_content_job service_no_variants repr_floor job1 example_input
                                     submitted_world) in
  exists j,
    find_one job1 (content_jobs w') = Some j /\
    status j = failed /\
    analysis j = Some (analysis_of service_no_variants example_input) /\
    optimization j = Some (optimization_value (lit "TONE: Calm")) /\
    variants j = None /\
    job_error j = Some (lit "500: Variant generation failed: " ++ lit "timeout") /\
    completed_at j = Some (clock submitted_world) /\
    stages_of submitted_world w' = [Analyze; Optimize; Vary].
Proof.
  exact (vary_failure_keeps_results service_no_variants repr_floor job1 example_input
           submitted_world submitted_job (lit "TONE: Calm") (Exception (lit "timeout"))
           submitted_job_found submitted_job_fresh eq_refl eq_refl).
Defined.

(** X9. Submitting an input under an unused identifier, running the pipeline
    with a service that answers the optimize and vary calls, and reading the
    job gives a completed job that holds the content submitted, the analysis,
    the optimization made of the trimmed reply, the variants parsed from the
    reply to the optimized text, no error, and a completion time later than
    the creation time. *)
Theorem submit_process_get
    (send_message : str -> str -> Exn + str) (float_repr : Q -> str)
    (new_id : str) (ci : ContentInput) (w : World) (o response : str) :
  find_one new_id (content_jobs w) = None ->
  optimize_reply send_message float_repr ci = inr o ->
  variants_reply send_message ci (strip o) = inr response ->
  let w1 := snd (submit_content new_id ci w) in
  let w2 := snd (process_content_job send_message float_repr new_id ci w1) in
  exists j,
    get_job_status new_id w2 = (inr j, w2) /\
    status j = completed /\
    original_content j = content ci /\
    analysis j = Some (analysis_of send_message ci) /\
    optimization j = Some (optimization_value o) /\
    variants j = Some (variants_value (strip o) response) /\
    job_error j = None /\
    created_at j = clock w /\
    completed_at j = Some (S (clock w)).
Proof.
  intros Hnew Hr Hv. cbv zeta.
  rewrite (process_run_completes _ _ new_id ci _ o response Hr Hv).
  unfold get_job_status, bind, find_one_doc.
  cbn [fst snd content_jobs clock written tick entered].
  rewrite !find_one_update_first by reflexivity.
  unfold submit_content, bind, utcnow, insert_one, ret.
  cbn [fst snd content_jobs written tick clock].
  rewrite find_one_app by exact Hnew. cbn [job_id].
  destruct (decide (new_id = new_id)); [|contradiction].
  eexists. split; [reflexivity|]. repeat split.
Qed.

Lemma submit_process_get_witness :
  let o := optimize_prompt repr_floor (content_type example_input) (title example_input)
             (content example_input) (analysis_of service_echo example_input) in
  let response := variants_prompt (content_type example_input) (title example_input)
                    (strip o) in
  let w1 := snd (submit_content job1 example_input initial_world) in
  let w2 := snd (process_content_job service_echo repr_floor job1 example_input w1) in
  exists j,
    get_job_status job1 w2 = (inr j, w2) /\
    status j = completed /\
    original_content j = content example_input /\
    analysis j = Some (analysis_of service_echo example_input) /\
    optimization j = Some (optimization_value o) /\
    variants j = Some (variants_value (strip o) response) /\
    job_error j = None /\
    created_at j = clock initial_world /\
    completed_at j = Some (S (clock initial_world)).
Proof.
  exact (submit_process_get service_echo repr_floor job1 example_input initial_world
           _ _ eq_refl eq_refl eq_refl).
Defined.

(** ** The statistics across a run of the pipeline *)

Lemma count_documents_update_first (q : ContentJob -> bool) (i : str)
    (f : ContentJob -> ContentJob) (docs : list ContentJob) (j : ContentJob) :
  find_one i docs = Some j ->
  (count_documents q (update_first i f docs) + bool_to_nat (q j))%nat =
  (count_documents q docs + bool_to_nat (q (f j)))%nat.
Proof.
  unfold count_documents. induction docs as [|d docs IH]; simpl; [discriminate|].
  destruct (decide (job_id d = i)) as [Hd|Hd].
  - intros H. injection H as ->. simpl.
    destruct (q j), (q (f j)); simpl; lia.
  - intros H. specialize (IH H). simpl. destruct (q d); simpl; lia.
Qed.

Lemma status_is_unfold (s : Status) (j : ContentJob) :
  status_is s j = if decide (status j = s) then true else false.
Proof. reflexivity. Qed.

Lemma final_update_status (send_message : str -> str -> Exn + str)
    (float_repr : Q -> str) (ci : ContentInput) (t : nat) (j : ContentJob) :
  status (final_update send_message float_repr ci t j) =
  match optimize_reply send_message float_repr ci with
  | inl _ => failed
  | inr o =>
      match variants_reply send_message ci (strip o) with
      | inl _ => failed
      | inr _ => completed
      end
  end.
Proof.
  unfold final_update. cbv zeta.
  destruct (optimize_reply send_message float_repr ci) as [e|o]; [reflexivity|].
  destruct (variants_reply send_message ci (strip o)); reflexivity.
Qed.

(** X10. A run of the pipeline on a job that is processing leaves the total
    of [get_stats] unchanged, takes one job from the processing count and adds
    it to the completed count when the optimize and vary calls are answered,
    to the failed count when one of them raises. *)
Theorem stats_after_pipeline
    (send_message : str -> str -> Exn + str) (float_repr : Q -> str)
    (id : str) (ci : ContentInput) (w : World) (j0 : ContentJob) :
  find_one id (content_jobs w) = Some j0 ->
  status j0 = processing ->
  let before := get_stats (content_jobs w) in
  let after :=
    get_stats (content_jobs (snd (process_content_job send_message float_repr id ci w))) in
  let answered :=
    match optimize_reply send_message float_repr ci with
    | inl _ => false
    | inr o =>
        match variants_reply send_message ci (strip o) with
        | inl _ => false
        | inr _ => true
        end
    end in
  total_jobs after = total_jobs before /\
  S (processing_jobs after) = processing_jobs before /\
  completed_jobs after = (completed_jobs before + bool_to_nat answered)%nat /\
  failed_jobs after = (failed_jobs before + bool_to_nat (negb answered))%nat.
Proof.
  intros Hfind Hst. cbv zeta.
  destruct (process_content_job_effect send_message float_repr id ci w) as (_ & H2 & _).
  rewrite H2, !get_stats_unfold.
  cbn [total_jobs completed_jobs processing_jobs failed_jobs stats_cursor_order].
  pose proof (count_documents_update_first (status_is processing) id
                (final_update send_message float_repr ci (clock w)) _ _ Hfind) as Hp.
  pose proof (count_documents_update_first (status_is completed) id
                (final_update send_message float_repr ci (clock w)) _ _ Hfind) as Hc.
  pose proof (count_documents_update_first (status_is failed) id
                (final_update send_message float_repr ci (clock w)) _ _ Hfind) as Hf.
  rewrite !status_is_unfold, final_update_status, Hst in Hp, Hc, Hf.
  split; [apply update_first_length|].
  destruct (optimize_reply send_message float_repr ci) as [e|o];
    [|destruct (variants_reply send_message ci (strip o))];
    repeat match type of Hp with context [decide (?a = ?b)] =>
      destruct (decide (a = b)); try discriminate; try contradiction end;
    repeat match type of Hc with context [decide (?a = ?b)] =>
      destruct (decide (a = b)); try discriminate; try contradiction end;
    repeat match type of Hf with context [decide (?a = ?b)] =>
      destruct (decide (a = b)); try discriminate; try contradiction end;
    cbn [bool_to_nat negb] in *; lia.
Qed.

Lemma stats_after_pipeline_witness :
  let before := get_stats (content_jobs submitted_world) in
  let after :=
    get_stats (content_jobs (snd (process_content_job service_down repr_floor job1
                                     example_input submitted_world))) in
  total_jobs after = total_jobs before /\
  S (processing_jobs after) = processing_jobs before /\
  completed_jobs after = (completed_jobs before + bool_to_nat false)%nat /\
  failed_jobs after = (failed_jobs before + bool_to_nat (negb false))%nat.
Proof.
  exact (stats_after_pipeline service_down repr_floor job1 example_input
           submitted_world submitted_job submitted_job_found eq_refl).
Defined.

(** X11. When the service answers every call with a reply or with an
    [Exception], a run of the pipeline on a job that is in the collection, in
    whatever state, leaves the job completed or failed, with a completion
    time and the analysis of this run. The job is failed exactly when the
    optimize or the vary call raised the [Exception], and then it carries an
    error text and no variants of this run are stored; it is completed with
    variants otherwise. (An error that is no [Exception], like the
    cancellation of the task, is outside this statement.) *)
Theorem pipeline_reaches_terminal_status
    (send_message : str -> str -> Exn + str) (float_repr : Q -> str)
    (id : str) (ci : ContentInput) (w : World) (j0 : ContentJob) :
  find_one id (content_jobs w) = Some j0 ->
  let w' := snd (process_content_job send_message float_repr id ci w) in
  exists j,
    find_one id (content_jobs w') = Some j /\
    (status j = completed \/ status j = failed) /\
    completed_at j = Some (clock w) /\
    analysis j = Some (analysis_of send_message ci) /\
    (status j = failed <->
     (exists e, optimize_reply send_message float_repr ci = inl e) \/
     (exists o e, optimize_reply send_message float_repr ci = inr o /\
                  variants_reply send_message ci (strip o) = inl e)) /\
    (status j = failed -> is_Some (job_error j) /\ variants j = variants j0) /\
    (status j = completed -> job_error j = job_error j0 /\ is_Some (variants j)).
Proof.
  intros Hfind. cbv zeta.
  destruct (process_content_job_effect send_message float_repr id ci w) as (_ & H2 & _).
  rewrite H2, find_one_update_first, Hfind by (intros j; apply final_update_id).
  eexists. split; [reflexivity|]. unfold final_update. cbv zeta.
  destruct (optimize_reply send_message float_repr ci) as [e|o] eqn:Hr;
    [|destruct (variants_reply send_message ci (strip o)) as [e|v] eqn:Hv]; cbn.
  - split; [right; reflexivity|]. split; [reflexivity|]. split; [reflexivity|].
    split; [split; [intros _; left; eexists; reflexivity | reflexivity]|].
    split; [intros _; split; [eexists|]; reflexivity | discriminate].
  - split; [right; reflexivity|]. split; [reflexivity|]. split; [reflexivity|].
    split; [split; [intros _; right; eexists _, _; split; [reflexivity | exact Hv]
                   | reflexivity]|].
    split; [intros _; split; [eexists|]; reflexivity | discriminate].
  - split; [left; reflexivity|]. split; [reflexivity|]. split; [reflexivity|].
    split.
    + split; [discriminate|]. intros [[e He]|(o' & e & Ho & He)]; [discriminate|].
      injection Ho as <-. congruence.
    + split; [discriminate|]. intros _. split; [reflexivity | eexists; reflexivity].
Qed.

Lemma pipeline_reaches_terminal_status_witness :
  let w' := snd (process_content_job service_down repr_floor (lit "2") example_input
                                     two_jobs_world) in
  exists j,
    find_one (lit "2") (content_jobs w') = Some j /\
    (status j = completed \/ status j = failed) /\
    completed_at j = Some (clock two_jobs_world) /\
    analysis j = Some (analysis_of service_down example_input) /\
    (status j = failed <->
     (exists e, optimize_reply service_down repr_floor example_input = inl e) \/
     (exists o e, optimize_reply service_down repr_floor example_input = inr o /\
                  variants_reply service_down example_input (strip o) = inl e)) /\
    (status j = failed -> is_Some (job_error j) /\ variants j = variants (scored_job 2 50)) /\
    (status j = completed ->
     job_error j = job_error (scored_job 2 50) /\ is_Some (variants j)).
Proof.
  exact (pipeline_reaches_terminal_status service_down repr_floor (lit "2") example_input
           two_jobs_world (scored_job 2 50) eq_refl).
Defined.

(** ** Parsing the replies of the service *)

Section MatcherFacts.
Context {R : Type}.

Lemma re_lit_app (l : str) (k : str -> option R) (rest : str) :
  re_lit l k (l ++ rest) = k rest.
Proof.
  induction l as [|a l IH]; simpl; [reflexivity|].
  destruct (decide (a = a)); [exact IH | contradiction].
Qed.

Lemma re_lit_starts (l : str) (k : str -> option R) (s : str) :
  starts_with l s = false -> re_lit l k s = None.
Proof.
  revert s. induction l as [|a l IH]; intros s; simpl; [discriminate|].
  destruct s as [|b s]; [reflexivity|].
  destruct (decide (a = b)); [apply IH | reflexivity].
Qed.

(** [\s*] and the like stop at the first character outside the class when
    what follows matches from there. *)
Lemma re_star_stops (p : ascii -> bool) (k : str -> option R) (ws s : str) (r : R) :
  forallb p ws = true -> k s = Some r ->
  match s with c :: _ => p c = false | [] => True end ->
  re_star p k (ws ++ s) = Some r.
Proof.
  intros Hws Hk Hs. induction ws as [|c ws IH]; simpl.
  - destruct s as [|c t]; simpl; [exact Hk|]. rewrite Hs. exact Hk.
  - simpl in Hws. apply andb_true_iff in Hws as [Hc Hws].
    rewrite Hc, (IH Hws). reflexivity.
Qed.

(** A greedy group whose continuation always succeeds takes the whole run. *)
Lemma re_plus_group_greedy (p : ascii -> bool) (k : str -> str -> option R)
    (f : str -> str -> R) (acc s : str) :
  (forall g rest, k g rest = Some (f g rest)) ->
  re_plus_group p k acc s =
  match s with
  | c :: _ => if p c then Some (f (acc ++ take_while p s) (drop_while p s)) else None
  | [] => None
  end.
Proof.
  intros Hk. revert acc. induction s as [|c t IH]; intros acc; [reflexivity|].
  simpl. destruct (p c) eqn:Hc; [|reflexivity].
  rewrite IH. destruct t as [|d t']; simpl.
  - apply Hk.
  - destruct (p d); simpl; rewrite <- ?app_assoc; [reflexivity | apply Hk].
Qed.

(** A lazy group takes characters until the continuation accepts. *)
Lemma re_lazy_plus_group_until (k : str -> str -> option R) (acc x y : str) (r : R) :
  x <> [] ->
  (forall x1 x2, x = x1 ++ x2 -> x1 <> [] -> x2 <> [] -> k (acc ++ x1) (x2 ++ y) = None) ->
  k (acc ++ x) y = Some r ->
  re_lazy_plus_group is_any k acc (x ++ y) = Some r.
Proof.
  revert acc. induction x as [|c x IH]; intros acc Hne Hno Hk; [contradiction|].
  simpl. destruct x as [|d x'].
  - simpl in *. rewrite Hk. reflexivity.
  - pose proof (Hno [c] (d :: x') eq_refl ltac:(discriminate) ltac:(discriminate)) as H0.
    cbn [app] in H0. cbn [app]. rewrite H0.
    apply IH; [discriminate | | rewrite <- app_assoc; exact Hk].
    intros x1 x2 Hx H1 H2. rewrite <- app_assoc.
    apply (Hno (c :: x1) x2); [simpl; rewrite Hx; reflexivity | discriminate | exact H2].
Qed.

(** [re.search] passes over a prefix at no position of which the pattern
    matches. *)
Lemma re_search_skip (m : str -> option R) (x s : str) :
  (forall x1 x2, x = x1 ++ x2 -> x2 <> [] -> m (x2 ++ s) = None) ->
  re_search m (x ++ s) = re_search m s.
Proof.
  induction x as [|c x IH]; intros Hno; [reflexivity|].
  pose proof (Hno [] (c :: x) eq_refl ltac:(discriminate)) as H0.
  cbn [app] in H0. cbn [app re_search]. rewrite H0.
  apply IH. intros x1 x2 Hx H2. apply (Hno (c :: x1) x2); [rewrite Hx; reflexivity | exact H2].
Qed.

Lemma re_search_here (m : str -> option R) (s : str) (r : R) :
  m s = Some r -> re_search m s = Some r.
Proof. intros H. destruct s; simpl; rewrite H; reflexivity. Qed.

(** [re.search] for a pattern that starts with a literal finds nothing in
    a text that does not contain the literal. *)
Lemma re_search_lit_absent (l : str) (k : str -> option R) (s : str) :
  contains l s = false -> re_search (re_lit l k) s = None.
Proof.
  induction s as [|c t IH]; simpl; intros H.
  - apply orb_false_iff in H as [H _]. rewrite re_lit_starts by exact H. reflexivity.
  - apply orb_false_iff in H as [H1 H2].
    rewrite re_lit_starts by exact H1. apply IH. exact H2.
Qed.
End MatcherFacts.

(** *** Occurrences of a marker across a separator *)

Lemma starts_with_before_sep (m x y : str) (c : ascii) :
  ~ In c m -> starts_with m (x ++ c :: y) = true -> starts_with m x = true.
Proof.
  revert x. induction m as [|a m IH]; intros x Hc H; [reflexivity|].
  destruct x as [|b x]; simpl in *.
  - destruct (decide (a = c)) as [->|]; [tauto | discriminate].
  - destruct (decide (a = b)); [|discriminate]. apply IH; tauto.
Qed.

Lemma contains_suffix (m x1 x2 : str) :
  contains m (x1 ++ x2) = false -> contains m x2 = false.
Proof.
  induction x1 as [|c x1 IH]; simpl; [tauto|].
  intros H. apply orb_false_iff in H as [_ H]. apply IH. exact H.
Qed.

Lemma contains_starts (m x : str) : contains m x = false -> starts_with m x = false.
Proof. destruct x; simpl; intros H; apply orb_false_iff in H as [H _]; exact H. Qed.

(** A marker that occurs nowhere in [x] and does not hold the separator [c]
    starts at no position of [x] in [x ++ c :: y]. *)
Lemma marker_not_in_prefix (m x y : str) (c : ascii) :
  ~ In c m -> contains m x = false ->
  forall x1 x2, x = x1 ++ x2 -> starts_with m (x2 ++ c :: y) = false.
Proof.
  intros Hc Hx x1 x2 Heq. subst x.
  destruct (starts_with m (x2 ++ c :: y)) eqn:E; [|reflexivity].
  apply starts_with_before_sep in E; [|exact Hc].
  apply contains_suffix, contains_starts in Hx. congruence.
Qed.

Lemma contains_app_sep (m x y : str) (c : ascii) :
  ~ In c m -> contains m x = false -> contains m y = false ->
  contains m (x ++ c :: y) = false.
Proof.
  intros Hc Hx Hy. induction x as [|b x IH].
  - simpl. rewrite Hy, orb_false_r.
    destruct m as [|a m]; [destruct y; discriminate|].
    simpl. destruct (decide (a = c)) as [->|]; [simpl in Hc; tauto | reflexivity].
  - cbn [app contains]. simpl in Hx. apply orb_false_iff in Hx as [Hs Hx].
    rewrite (IH Hx), orb_false_r.
    refine (marker_not_in_prefix m (b :: x) y c Hc _ [] (b :: x) eq_refl).
    simpl. rewrite Hs, Hx. reflexivity.
Qed.

(** *** [strip] *)

Lemma drop_while_app_all (p : ascii -> bool) (ws s : str) :
  forallb p ws = true -> drop_while p (ws ++ s) = drop_while p s.
Proof.
  induction ws as [|c ws IH]; simpl; [reflexivity|].
  intros H. apply andb_true_iff in H as [Hc H]. rewrite Hc. apply IH. exact H.
Qed.

Lemma drop_while_head (p : ascii -> bool) (c : ascii) (t : str) :
  p c = false -> drop_while p (c :: t) = c :: t.
Proof. intros H. simpl. rewrite H. reflexivity. Qed.

Lemma drop_while_shorter (p : ascii -> bool) (c : ascii) (t : str) :
  p c = true -> (length (drop_while p (c :: t)) < length (c :: t))%nat.
Proof. intros H. simpl. rewrite H. pose proof (drop_while_length p t). lia. Qed.

Lemma strip_length (s : str) : (length (strip s) <= length s)%nat.
Proof.
  unfold strip. rewrite length_rev.
  pose proof (drop_while_length is_space (rev (drop_while is_space s))) as H1.
  pose proof (drop_while_length is_space s) as H2.
  rewrite length_rev in H1. lia.
Qed.

(** A text that [strip] leaves as it is starts with a character that is not
    white space, unless it is empty. *)
Lemma strip_fixed_head (s : str) :
  strip s = s -> match s with c :: _ => is_space c = false | [] => True end.
Proof.
  intros H. destruct s as [|c t]; [exact I|].
  destruct (is_space c) eqn:Hc; [|reflexivity]. exfalso.
  assert (Hlen : (length (strip (c :: t)) < length (c :: t))%nat).
  { unfold strip. rewrite length_rev.
    pose proof (drop_while_length is_space (rev (drop_while is_space (c :: t)))) as H1.
    pose proof (drop_while_shorter is_space c t Hc) as H2.
    rewrite length_rev in H1. lia. }
  rewrite H in Hlen. lia.
Qed.

(** ... and ends with one. *)
Lemma strip_fixed_last (s : str) :
  strip s = s ->
  match rev s with c :: _ => is_space c = false | [] => True end.
Proof.
  intros H. destruct (rev s) as [|c t] eqn:Hr; [exact I|].
  destruct (is_space c) eqn:Hc; [|reflexivity]. exfalso.
  assert (Hhead : match s with d :: _ => is_space d = false | [] => True end)
    by (apply strip_fixed_head; exact H).
  assert (Hd : drop_while is_space s = s).
  { destruct s as [|d s']; [reflexivity|]. apply drop_while_head. exact Hhead. }
  assert (Hlen : (length (strip s) < length s)%nat).
  { unfold strip. rewrite Hd, Hr, length_rev.
    pose proof (drop_while_shorter is_space c t Hc) as H2.
    rewrite <- (length_rev s), Hr. exact H2. }
  rewrite H in Hlen. lia.
Qed.

Lemma forallb_rev_eq (p : ascii -> bool) (l : str) : forallb p (rev l) = forallb p l.
Proof.
  induction l as [|c l IH]; [reflexivity|].
  simpl. rewrite forallb_app, IH. simpl. rewrite andb_true_r. apply andb_comm.
Qed.

(** White space appended to a text is stripped with the rest. *)
Lemma strip_app_spaces (s ws : str) :
  forallb is_space ws = true -> strip s = s -> s <> [] -> strip (s ++ ws) = s.
Proof.
  intros Hws Hs Hne.
  pose proof (strip_fixed_head s Hs) as Hhead.
  pose proof (strip_fixed_last s Hs) as Hlast.
  destruct s as [|c t]; [contradiction|].
  unfold strip. cbn [app]. rewrite drop_while_head by exact Hhead.
  change (c :: t ++ ws) with ((c :: t) ++ ws). rewrite rev_app_distr.
  rewrite drop_while_app_all by (rewrite forallb_rev_eq; exact Hws).
  destruct (rev (c :: t)) as [|d r] eqn:Hr.
  - apply (f_equal (@length ascii)) in Hr. rewrite length_rev in Hr. discriminate.
  - rewrite drop_while_head by exact Hlast. rewrite <- Hr. apply rev_involutive.
Qed.

(** *** The variants *)

(** X12. When the reply to the vary call does not contain the marker
    "VARIANT_A:", variant A is the optimized content unchanged, and likewise
    for "VARIANT_B:" and variant B. *)
Theorem variants_default_to_optimized
    (send_message : str -> str -> Exn + str) (optimized title content_type : str)
    (w : World) (response : str) :
  send_message variants_system_message (variants_prompt content_type title optimized)
    = inr response ->
  exists v,
    generate_variants_with_ai send_message optimized title content_type w
      = (inr v, entered Vary w) /\
    (contains (lit "VARIANT_A:") response = false -> variant_a v = optimized) /\
    (contains (lit "VARIANT_B:") response = false -> variant_b v = optimized).
Proof.
  intros Hr. rewrite variants_run, Hr. eexists. split; [reflexivity|].
  cbn [variant_a variant_b variants_value].
  split; intros Hc.
  - unfold re_variant_a. rewrite re_search_lit_absent by exact Hc. reflexivity.
  - unfold re_variant_b. rewrite re_search_lit_absent by exact Hc. reflexivity.
Qed.

Lemma variants_default_to_optimized_witness :
  exists v,
    generate_variants_with_ai (service_const (lit "I cannot help with that."))
      (lit "Better text") (lit "T") (lit "article") initial_world
      = (inr v, entered Vary initial_world) /\
    (contains (lit "VARIANT_A:") (lit "I cannot help with that.") = false ->
     variant_a v = lit "Better text") /\
    (contains (lit "VARIANT_B:") (lit "I cannot help with that.") = false ->
     variant_b v = lit "Better text").
Proof.
  exact (variants_default_to_optimized (service_const (lit "I cannot help with that."))
           (lit "Better text") (lit "T") (lit "article") initial_world
           (lit "I cannot help with that.") eq_refl).
Defined.

Lemma starts_with_app (l rest : str) : starts_with l (l ++ rest) = true.
Proof. apply starts_with_spec. exists rest. reflexivity. Qed.

Lemma re_at_end_long (s : str) : (2 <= length s)%nat -> re_at_end s = false.
Proof. destruct s as [|c [|d s]]; simpl; intros H; try lia; reflexivity. Qed.

Lemma re_at_end_inv (s : str) : re_at_end s = true -> s = [] \/ s = [newline].
Proof.
  destruct s as [|c [|d s]]; simpl; intros H; [left; reflexivity | | discriminate].
  destruct (decide (c = newline)) as [->|]; [right; reflexivity | discriminate].
Qed.

Lemma suffix_of_snoc {A} (x1 x2 u : list A) (c : A) :
  x1 ++ x2 = u ++ [c] -> x2 <> [] -> exists x2', x2 = x2' ++ [c] /\ u = x1 ++ x2'.
Proof.
  intros H Hne. destruct (exists_last Hne) as [x2' [d ->]].
  rewrite app_assoc in H. apply app_inj_tail in H as [H ->].
  exists x2'. split; [reflexivity | symmetry; exact H].
Qed.

Section VariantsFormat.
Variables a b : str.
Hypothesis a_stripped : strip a = a.
Hypothesis a_not_empty : a <> [].
Hypothesis b_stripped : strip b = b.
Hypothesis b_not_empty : b <> [].
Hypothesis no_marker : contains (lit "VARIANT_B:") a = false.

Let marker_b : str := lit "VARIANT_B:".

Lemma newline_not_in_marker : ~ In newline marker_b.
Proof. vm_compute. intuition discriminate. Qed.

Lemma marker_not_in_a_line : contains marker_b (a ++ nl) = false.
Proof.
  apply contains_app_sep; [apply newline_not_in_marker | exact no_marker | reflexivity].
Qed.

Lemma re_variant_a_format :
  re_search re_variant_a (variants_format a b) = Some (a ++ nl ++ nl).
Proof.
  apply re_search_here. unfold re_variant_a, variants_format.
  rewrite re_lit_app.
  apply (re_star_stops is_space _ nl); [reflexivity | |].
  - change (a ++ nl ++ nl ++ lit "VARIANT_B:" ++ nl ++ b)
      with (a ++ nl ++ nl ++ marker_b ++ nl ++ b).
    replace (a ++ nl ++ nl ++ marker_b ++ nl ++ b)
      with ((a ++ nl ++ nl) ++ marker_b ++ nl ++ b)
      by (rewrite <- !app_assoc; reflexivity).
    apply re_lazy_plus_group_until.
    + destruct a; [contradiction | discriminate].
    + intros x1 x2 Hx H1 H2. cbn [app].
      replace (a ++ nl ++ nl) with ((a ++ nl) ++ [newline]) in Hx
        by (rewrite <- app_assoc; reflexivity).
      symmetry in Hx. apply suffix_of_snoc in Hx as [x2' [-> Hx]]; [|exact H2].
      rewrite <- app_assoc. cbn [app].
      rewrite (marker_not_in_prefix marker_b (a ++ nl) _ newline
                 newline_not_in_marker marker_not_in_a_line x1 x2' Hx).
      rewrite re_at_end_long; [reflexivity|].
      rewrite length_app. simpl. lia.
    + cbn [app]. fold marker_b. rewrite starts_with_app. reflexivity.
  - pose proof (strip_fixed_head a a_stripped) as H. destruct a; [contradiction | exact H].
Qed.

Lemma re_variant_b_format :
  re_search re_variant_b (variants_format a b) = Some b.
Proof.
  unfold variants_format.
  replace (lit "VARIANT_A:" ++ nl ++ a ++ nl ++ nl ++ lit "VARIANT_B:" ++ nl ++ b)
    with (((lit "VARIANT_A:" ++ nl ++ a ++ nl) ++ [newline]) ++ marker_b ++ nl ++ b)
    by (rewrite <- !app_assoc; reflexivity).
  rewrite re_search_skip.
  - apply re_search_here. unfold re_variant_b. fold marker_b. rewrite re_lit_app.
    apply (re_star_stops is_space _ nl); [reflexivity | |].
    + rewrite <- (app_nil_r b) at 1. apply re_lazy_plus_group_until.
      * exact b_not_empty.
      * intros x1 x2 Hx H1 H2. cbn [app]. rewrite app_nil_r.
        destruct (re_at_end x2) eqn:E; [|reflexivity]. exfalso.
        apply re_at_end_inv in E as [->| ->]; [contradiction|].
        pose proof (strip_fixed_last b b_stripped) as Hl.
        rewrite Hx, rev_app_distr in Hl. simpl in Hl. discriminate Hl.
      * reflexivity.
    + pose proof (strip_fixed_head b b_stripped) as H.
      destruct b; [contradiction | exact H].
  - intros x1 x2 Hx H2. symmetry in Hx.
    apply suffix_of_snoc in Hx as [x2' [-> Hx]]; [|exact H2].
    unfold re_variant_b. apply re_lit_starts. fold marker_b.
    rewrite <- app_assoc. cbn [app].
    apply (marker_not_in_prefix marker_b (lit "VARIANT_A:" ++ nl ++ a ++ nl) _ newline
             newline_not_in_marker) with (x1 := x1); [|exact Hx].
    apply contains_app_sep;
      [apply newline_not_in_marker | reflexivity | apply marker_not_in_a_line].
Qed.
End VariantsFormat.

(** X13. A reply of the vary call in the format the prompt asks for,
    "VARIANT_A:", a line feed, the text a, an empty line, "VARIANT_B:", a line
    feed and the text b, is parsed back into a and b, provided a and b are not
    empty, have no white space at their ends and a does not contain
    "VARIANT_B:". *)
Theorem variants_round_trip
    (send_message : str -> str -> Exn + str) (optimized title content_type : str)
    (w : World) (a b : str) :
  send_message variants_system_message (variants_prompt content_type title optimized)
    = inr (variants_format a b) ->
  strip a = a -> a <> [] -> strip b = b -> b <> [] ->
  contains (lit "VARIANT_B:") a = false ->
  exists v,
    generate_variants_with_ai send_message optimized title content_type w
      = (inr v, entered Vary w) /\
    variant_a v = a /\ variant_b v = b.
Proof.
  intros Hr Ha Ha' Hb Hb' Hm. rewrite variants_run, Hr.
  eexists. split; [reflexivity|]. cbn [variant_a variant_b variants_value].
  rewrite re_variant_a_format by assumption.
  rewrite re_variant_b_format by assumption.
  split; [|exact Hb].
  apply strip_app_spaces; [reflexivity | exact Ha | exact Ha'].
Qed.

Lemma variants_round_trip_witness :
  exists v,
    generate_variants_with_ai
      (service_const (variants_format (lit "A story.") (lit "9 of 10 readers agree.")))
      (lit "Better text") (lit "T") (lit "article") initial_world
      = (inr v, entered Vary initial_world) /\
    variant_a v = lit "A story." /\ variant_b v = lit "9 of 10 readers agree.".
Proof.
  refine (variants_round_trip
            (service_const (variants_format (lit "A story.") (lit "9 of 10 readers agree.")))
            (lit "Better text") (lit "T") (lit "article") initial_world
            (lit "A story.") (lit "9 of 10 readers agree.")
            eq_refl eq_refl _ eq_refl _ eq_refl); discriminate.
Defined.

(** *** The tone and the suggestions *)

Lemma take_while_line (p : ascii -> bool) (x rest : str) :
  forallb p x = true ->
  match rest with c :: _ => p c = false | [] => True end ->
  take_while p (x ++ rest) = x /\ drop_while p (x ++ rest) = rest.
Proof.
  intros Hx Hrest. induction x as [|c x IH]; simpl.
  - destruct rest as [|d rest]; simpl; [auto|]. rewrite Hrest. auto.
  - simpl in Hx. apply andb_true_iff in Hx as [Hc Hx]. rewrite Hc.
    destruct (IH Hx) as [-> ->]. auto.
Qed.

Lemma re_numbered_not_digit (c : ascii) (s : str) :
  is_digit c = false -> re_numbered (c :: s) = None.
Proof. intros H. unfold re_numbered. simpl. rewrite H. reflexivity. Qed.

(** [re.findall] passes over text without digits. *)
Lemma findall_numbered_skip (x s : str) :
  no_digit x = true -> re_findall re_numbered (x ++ s) = re_findall re_numbered s.
Proof.
  unfold no_digit. induction x as [|c x IH]; intros H; [reflexivity|].
  simpl in H. apply andb_true_iff in H as [Hc H]. apply negb_true_iff in Hc.
  cbn [app]. rewrite re_findall_step by apply re_numbered_consumes.
  rewrite re_numbered_not_digit by exact Hc. apply IH. exact H.
Qed.

(** A numbered line: a digit, a full stop, a blank and the text up to the
    end of the line. *)
Lemma re_numbered_line (d : ascii) (s rest : str) :
  is_digit d = true -> starts_with_text s = true -> is_line s = true ->
  match rest with c :: _ => c = newline | [] => True end ->
  re_numbered (d :: lit ". " ++ s ++ rest) = Some (s, rest).
Proof.
  intros Hd Hs Hl Hrest. unfold re_numbered.
  cbn [re_plus lit list_ascii_of_string app]. rewrite Hd.
  change (is_digit "."%char) with false. cbv iota.
  cbn [re_lit]. destruct (decide ("."%char = "."%char)); [|contradiction].
  change (" "%char :: s ++ rest) with ([" "%char] ++ s ++ rest).
  apply re_star_stops; [reflexivity | |].
  - rewrite re_class_plus_eq. destruct s as [|c s']; [discriminate|].
    cbn [app]. unfold is_line in Hl.
    assert (Hc : is_dot c = true) by (simpl in Hl; apply andb_true_iff in Hl; tauto).
    rewrite Hc.
    assert (Hr : match rest with c :: _ => is_dot c = false | [] => True end)
      by (destruct rest as [|c0 rest']; [exact I | rewrite Hrest; reflexivity]).
    destruct (take_while_line is_dot (c :: s') rest Hl Hr) as [H1 H2].
    cbn [app] in H1, H2. rewrite H1, H2. reflexivity.
  - destruct s as [|c s']; [discriminate|]. simpl in Hs.
    apply negb_true_iff in Hs. exact Hs.
Qed.

Lemma findall_numbered_line (d : ascii) (s rest : str) :
  is_digit d = true -> starts_with_text s = true -> is_line s = true ->
  match rest with c :: _ => c = newline | [] => True end ->
  re_findall re_numbered (d :: lit ". " ++ s ++ rest) = s :: re_findall re_numbered rest.
Proof.
  intros Hd Hs Hl Hrest.
  rewrite re_findall_step by apply re_numbered_consumes.
  rewrite re_numbered_line by assumption. reflexivity.
Qed.

Lemma parse_suggestions_format (t s1 s2 s3 : str) :
  no_digit t = true ->
  starts_with_text s1 = true -> is_line s1 = true ->
  starts_with_text s2 = true -> is_line s2 = true ->
  starts_with_text s3 = true -> is_line s3 = true ->
  re_findall re_numbered (analysis_format t s1 s2 s3) = [s1; s2; s3].
Proof.
  intros Ht H1 L1 H2 L2 H3 L3. unfold analysis_format.
  replace (lit "TONE: " ++ t ++ nl ++ lit "SUGGESTIONS:" ++ nl
           ++ lit "1. " ++ s1 ++ nl ++ lit "2. " ++ s2 ++ nl ++ lit "3. " ++ s3)
    with ((lit "TONE: " ++ t ++ nl ++ lit "SUGGESTIONS:" ++ nl)
          ++ "1"%char :: lit ". " ++ s1 ++ nl ++ "2"%char :: lit ". " ++ s2
          ++ nl ++ "3"%char :: lit ". " ++ s3 ++ [])
    by (rewrite <- !app_assoc, app_nil_r; reflexivity).
  rewrite findall_numbered_skip.
  - rewrite findall_numbered_line; [|reflexivity | assumption | assumption | reflexivity].
    f_equal.
    rewrite (findall_numbered_skip nl) by reflexivity.
    rewrite findall_numbered_line; [|reflexivity | assumption | assumption | reflexivity].
    f_equal. rewrite (findall_numbered_skip nl) by reflexivity.
    rewrite findall_numbered_line; [|reflexivity | assumption | assumption | exact I].
    reflexivity.
  - unfold no_digit in *. rewrite !forallb_app, Ht. reflexivity.
Qed.

(** *** Between one and three suggestions *)

Lemma re_plus_run {R : Type} (p : ascii -> bool) (k : str -> option R) (x rest : str) (r : R) :
  forallb p x = true -> x <> [] ->
  match rest with c :: _ => p c = false | [] => True end ->
  k rest = Some r -> re_plus p k (x ++ rest) = Some r.
Proof.
  intros Hx Hne Hrest Hk. induction x as [|c x IH]; [contradiction|].
  cbn [forallb] in Hx. apply andb_true_iff in Hx as [Hc Hx].
  cbn [app re_plus]. rewrite Hc.
  destruct x as [|c' x'].
  - cbn [app]. destruct rest as [|d rest']; cbn [re_plus].
    + exact Hk.
    + rewrite Hrest. exact Hk.
  - rewrite (IH Hx) by discriminate. reflexivity.
Qed.

(** After the number: the full stop, the blank and the text up to the end of
    the line. *)
Lemma re_numbered_text (s rest : str) :
  starts_with_text s = true -> is_line s = true ->
  match rest with c :: _ => c = newline | [] => True end ->
  re_lit (lit ".")
    (re_star is_space (re_plus_group is_dot (fun g rest => Some (g, rest)) []))
    (lit ". " ++ s ++ rest) = Some (s, rest).
Proof.
  intros Hs Hl Hrest.
  cbn [lit list_ascii_of_string app re_lit].
  destruct (decide ("."%char = "."%char)); [|contradiction].
  change (" "%char :: s ++ rest) with ([" "%char] ++ s ++ rest).
  apply re_star_stops; [reflexivity | |].
  - rewrite re_class_plus_eq. destruct s as [|c s']; [discriminate|].
    cbn [app]. unfold is_line in Hl.
    assert (Hc : is_dot c = true) by (simpl in Hl; apply andb_true_iff in Hl; tauto).
    rewrite Hc.
    assert (Hr : match rest with c :: _ => is_dot c = false | [] => True end)
      by (destruct rest as [|c0 rest']; [exact I | rewrite Hrest; reflexivity]).
    destruct (take_while_line is_dot (c :: s') rest Hl Hr) as [H1 H2].
    cbn [app] in H1, H2. rewrite H1, H2. reflexivity.
  - destruct s as [|c s']; [discriminate|]. simpl in Hs.
    apply negb_true_iff in Hs. exact Hs.
Qed.

Lemma re_numbered_item (item : str * str) (rest : str) :
  well_formed_item item = true ->
  match rest with c :: _ => c = newline | [] => True end ->
  re_numbered (numbered_line item ++ rest) = Some (snd item, rest).
Proof.
  destruct item as [label text]. unfold well_formed_item, numbered_line. cbn [fst snd].
  intros H Hrest. apply andb_true_iff in H as [H Hl]. apply andb_true_iff in H as [Hd Hs].
  unfold re_numbered. rewrite <- !app_assoc.
  apply re_plus_run.
  - destruct label; [discriminate | exact Hd].
  - destruct label; discriminate.
  - reflexivity.
  - apply re_numbered_text; assumption.
Qed.

Lemma findall_numbered_nil : re_findall re_numbered [] = [].
Proof. reflexivity. Qed.

Lemma findall_numbered_trailer (trailer : str) :
  plain_trailer trailer = true -> re_findall re_numbered trailer = [].
Proof.
  intros H. apply andb_true_iff in H as [H _].
  rewrite <- (app_nil_r trailer), findall_numbered_skip by exact H. reflexivity.
Qed.

Lemma plain_trailer_head (trailer : str) :
  plain_trailer trailer = true ->
  match trailer with c :: _ => c = newline | [] => True end.
Proof.
  intros H. apply andb_true_iff in H as [_ H].
  destruct trailer as [|c t]; [exact I|].
  destruct (decide (c = newline)); [assumption | discriminate].
Qed.

(** [re.findall] on a numbered list returns the texts of its lines. *)
Lemma findall_numbered_list (items : list (str * str)) (trailer : str) :
  forallb well_formed_item items = true -> plain_trailer trailer = true ->
  re_findall re_numbered (numbered_list items ++ trailer) = map snd items.
Proof.
  intros Hi Ht. induction items as [|item items IH].
  - apply findall_numbered_trailer. exact Ht.
  - cbn [forallb] in Hi. apply andb_true_iff in Hi as [Hw Hi].
    destruct items as [|item' items'].
    + cbn [numbered_list map].
      rewrite re_findall_step by apply re_numbered_consumes.
      rewrite re_numbered_item by (try assumption; apply plain_trailer_head, Ht).
      rewrite findall_numbered_trailer by exact Ht. reflexivity.
    + change (numbered_list (item :: item' :: items'))
        with (numbered_line item ++ nl ++ numbered_list (item' :: items')).
      rewrite <- !app_assoc.
      rewrite re_findall_step by apply re_numbered_consumes.
      rewrite re_numbered_item by (try assumption; reflexivity).
      cbn [map]. f_equal.
      rewrite findall_numbered_skip by reflexivity.
      apply IH. exact Hi.
Qed.

(** Without a digit directly followed by a full stop nothing is found. *)
Lemma re_numbered_needs_mark {R : Type} (k : str -> option R) (s : str) :
  has_numbered_mark s = false -> re_plus is_digit (re_lit (lit ".") k) s = None.
Proof.
  induction s as [|c t IH]; intros H; [reflexivity|].
  cbn [has_numbered_mark] in H. apply orb_false_iff in H as [Hc Ht].
  cbn [re_plus]. destruct (is_digit c); [|reflexivity].
  rewrite (IH Ht). cbn [andb] in Hc.
  destruct t as [|d t']; [reflexivity|].
  cbn [lit list_ascii_of_string re_lit].
  destruct (decide ("."%char = d)) as [E|E]; [|reflexivity].
  destruct (decide (d = "."%char)); [discriminate | congruence].
Qed.

Lemma findall_fuel_no_mark (fuel : nat) (s : str) :
  has_numbered_mark s = false -> findall_fuel fuel re_numbered s = [].
Proof.
  revert s. induction fuel as [|fuel IH]; intros s H; [reflexivity|].
  cbn [findall_fuel]. unfold re_numbered at 1.
  rewrite re_numbered_needs_mark by exact H.
  destruct s as [|c t]; [reflexivity|].
  apply IH. cbn [has_numbered_mark] in H. apply orb_false_iff in H. tauto.
Qed.

(** Marks that are no list lines: a number without a text takes the next
    line as its text, a number at the end of the response finds nothing, and
    a decimal number in a sentence is taken for a list line. *)
Lemma parse_suggestions_off_format :
  parse_suggestions (lit "1." ++ nl ++ lit "2." ++ nl ++ lit "3." ++ nl ++ lit "4. x")
    = [lit "2."; lit "4. x"] /\
  parse_suggestions (lit "SUGGESTIONS:" ++ nl ++ lit "1.") = default_suggestions /\
  parse_suggestions (lit "Cut 2.5 of the text") = [lit "5 of the text"].
Proof. repeat split; vm_compute; reflexivity. Qed.

(** C6, amended. When the service replies, the analysis has between one and
    three suggestions. They are the three fixed strings "Improve clarity",
    "Enhance engagement", "Optimize structure" when the response has no digit
    directly followed by a full stop. When the response is a numbered list,
    lines of a number, a full stop, a blank and a text that is not empty and
    does not start with white space, possibly under a heading without digits
    and above further lines without digits, the suggestions are the texts of
    the first three lines at most: one or two lines are used as they are,
    more than three are cut to exactly three. *)
Theorem suggestions_between_one_and_three
    (send_message : str -> str -> Exn + str) (content title content_type : str)
    (w : World) (response : str) :
  send_message analysis_system_message (analysis_prompt content_type title content)
    = inr response ->
  exists a w',
    analyze_content_with_ai send_message content title content_type w = (inr a, w') /\
    (1 <= length (suggestions a) <= 3)%nat /\
    (has_numbered_mark response = false ->
     suggestions a =
       [lit "Improve clarity"; lit "Enhance engagement"; lit "Optimize structure"]) /\
    (forall heading items trailer,
       response = heading ++ numbered_list items ++ trailer ->
       no_digit heading = true -> items <> [] ->
       forallb well_formed_item items = true -> plain_trailer trailer = true ->
       suggestions a = firstn 3 (map snd items) /\
       length (suggestions a) = Nat.min 3 (length items)).
Proof.
  intros Hr. rewrite analyze_run, Hr. eexists _, _. split; [reflexivity|].
  cbn [suggestions analysis_value]. split; [|split].
  - rewrite parse_suggestions_length.
    destruct (length (re_findall re_numbered response)); lia.
  - intros H. unfold parse_suggestions, re_findall. cbv zeta.
    rewrite findall_fuel_no_mark by exact H. reflexivity.
  - intros heading items trailer -> Hh Hne Hi Ht.
    unfold parse_suggestions. cbv zeta.
    rewrite findall_numbered_skip by exact Hh.
    rewrite findall_numbered_list by assumption.
    destruct items as [|item items]; [contradiction|].
    cbn [map]. split; [reflexivity|].
    rewrite length_firstn. cbn [length]. rewrite length_map. reflexivity.
Qed.

(** C6 at work: a response with four numbered lines under the tone and the
    heading. *)
Lemma suggestions_between_one_and_three_witness :
  exists a w',
    analyze_content_with_ai (service_const reply_four_lines) (content example_input)
      (title example_input) (content_type example_input) initial_world = (inr a, w') /\
    suggestions a = [lit "One"; lit "Two"; lit "Three"].
Proof.
  destruct (suggestions_between_one_and_three (service_const reply_four_lines)
              (content example_input) (title example_input) (content_type example_input)
              initial_world reply_four_lines eq_refl) as (a & w' & Hrun & _ & _ & Hlist).
  exists a, w'. split; [exact Hrun|].
  apply (Hlist (lit "TONE: Calm" ++ nl ++ lit "SUGGESTIONS:" ++ nl)
               [(lit "1", lit "One"); (lit "2", lit "Two");
                (lit "3", lit "Three"); (lit "4", lit "Four")] []);
    reflexivity || discriminate.
Defined.

Lemma parse_tone_format (t rest : str) :
  strip t = t -> t <> [] -> is_line t = true ->
  parse_tone (lit "TONE: " ++ t ++ nl ++ rest) = t.
Proof.
  intros Hs Hne Hl. unfold parse_tone. cbv zeta.
  assert (H : re_search re_tone (lit "TONE: " ++ t ++ nl ++ rest) = Some t).
  { apply re_search_here. unfold re_tone.
    change (lit "TONE: " ++ t ++ nl ++ rest)
      with (lit "TONE:" ++ [" "%char] ++ t ++ nl ++ rest).
    rewrite re_lit_app. apply re_star_stops; [reflexivity | |].
    - rewrite (re_plus_group_greedy is_dot _ (fun g _ => g)) by reflexivity.
      destruct t as [|c t']; [contradiction|]. cbn [app].
      unfold is_line in Hl.
      assert (Hc : is_dot c = true) by (simpl in Hl; apply andb_true_iff in Hl; tauto).
      rewrite Hc.
      destruct (take_while_line is_dot (c :: t') (nl ++ rest) Hl) as [H1 _];
        [reflexivity|].
      cbn [app] in H1. rewrite H1. reflexivity.
    - pose proof (strip_fixed_head t Hs) as Hh.
      destruct t; [contradiction | exact Hh]. }
  rewrite H. exact Hs.
Qed.

(** X14. A reply of the analysis call in the format the prompt asks for, a
    "TONE: " line, a "SUGGESTIONS:" line and three lines numbered 1. to 3., is
    parsed back into its tone and its three suggestions, provided the tone is
    one line without digits and without white space at its ends and every
    suggestion is one line that starts with a character other than white
    space. *)
Theorem analysis_round_trip
    (send_message : str -> str -> Exn + str) (content title content_type : str)
    (w : World) (t s1 s2 s3 : str) :
  send_message analysis_system_message (analysis_prompt content_type title content)
    = inr (analysis_format t s1 s2 s3) ->
  strip t = t -> t <> [] -> is_line t = true -> no_digit t = true ->
  starts_with_text s1 = true -> is_line s1 = true ->
  starts_with_text s2 = true -> is_line s2 = true ->
  starts_with_text s3 = true -> is_line s3 = true ->
  exists a,
    analyze_content_with_ai send_message content title content_type w
      = (inr a, entered Analyze w) /\
    tone a = t /\ suggestions a = [s1; s2; s3].
Proof.
  intros Hr Ht Hne Hl Hd H1 L1 H2 L2 H3 L3. rewrite analyze_run, Hr.
  eexists. split; [reflexivity|]. cbn [tone suggestions analysis_value]. split.
  - unfold analysis_format. apply parse_tone_format; assumption.
  - unfold parse_suggestions. cbv zeta.
    rewrite parse_suggestions_format by assumption. reflexivity.
Qed.

Lemma analysis_round_trip_witness :
  exists a,
    analyze_content_with_ai
      (service_const (analysis_format (lit "Warm and direct") (lit "Cut the intro")
                        (lit "Add 2 examples") (lit "End with a question")))
      (content example_input) (title example_input) (content_type example_input)
      initial_world
      = (inr a, entered Analyze initial_world) /\
    tone a = lit "Warm and direct" /\
    suggestions a = [lit "Cut the intro"; lit "Add 2 examples"; lit "End with a question"].
Proof.
  refine (analysis_round_trip
            (service_const (analysis_format (lit "Warm and direct") (lit "Cut the intro")
                              (lit "Add 2 examples") (lit "End with a question")))
            (content example_input) (title example_input) (content_type example_input)
            initial_world (lit "Warm and direct") (lit "Cut the intro")
            (lit "Add 2 examples") (lit "End with a question")
            eq_refl eq_refl _ eq_refl eq_refl eq_refl eq_refl eq_refl eq_refl eq_refl eq_refl).
  discriminate.
Defined.

(** X15. When the reply of the analysis call does not contain "TONE:" the
    tone is "Neutral", and when it contains no digit the suggestions are
    "Improve clarity", "Enhance engagement" and "Optimize structure". *)
Theorem analysis_defaults
    (send_message : str -> str -> Exn + str) (content title content_type : str)
    (w : World) (response : str) :
  send_message analysis_system_message (analysis_prompt content_type title content)
    = inr response ->
  exists a,
    analyze_content_with_ai send_message content title content_type w
      = (inr a, entered Analyze w) /\
    (contains (lit "TONE:") response = false -> tone a = lit "Neutral") /\
    (no_digit response = true ->
     suggestions a =
       [lit "Improve clarity"; lit "Enhance engagement"; lit "Optimize structure"]).
Proof.
  intros Hr. rewrite analyze_run, Hr. eexists. split; [reflexivity|].
  cbn [tone suggestions analysis_value]. split.
  - intros Hc. unfold parse_tone, re_tone. cbv zeta.
    rewrite re_search_lit_absent by exact Hc. reflexivity.
  - intros Hd. unfold parse_suggestions. cbv zeta.
    rewrite <- (app_nil_r response), findall_numbered_skip by exact Hd. reflexivity.
Qed.

Lemma analysis_defaults_witness :
  exists a,
    analyze_content_with_ai (service_const (lit "No comment.")) (content example_input)
      (title example_input) (content_type example_input) initial_world
      = (inr a, entered Analyze initial_world) /\
    (contains (lit "TONE:") (lit "No comment.") = false -> tone a = lit "Neutral") /\
    (no_digit (lit "No comment.") = true ->
     suggestions a =
       [lit "Improve clarity"; lit "Enhance engagement"; lit "Optimize structure"]).
Proof.
  exact (analysis_defaults (service_const (lit "No comment.")) (content example_input)
           (title example_input) (content_type example_input) initial_world
           (lit "No comment.") eq_refl).
Defined.

(** ** More on the keywords *)

Lemma is_word_lower (c : ascii) : is_word (lower_char c) = is_word c.
Proof. destruct c as [[] [] [] [] [] [] [] []]; reflexivity. Qed.

Lemma lower_char_idempotent (c : ascii) : lower_char (lower_char c) = lower_char c.
Proof. destruct c as [[] [] [] [] [] [] [] []]; reflexivity. Qed.

Lemma lower_idempotent (s : str) : lower (lower s) = lower s.
Proof.
  unfold lower. rewrite map_map. apply map_ext. intros c. apply lower_char_idempotent.
Qed.

Section ClassUnderMap.
Variable p : ascii -> bool.
Variable f : ascii -> ascii.
Hypothesis p_f : forall c, p (f c) = p c.

Lemma take_while_map (s : str) : take_while p (map f s) = map f (take_while p s).
Proof.
  induction s as [|c s IH]; simpl; [reflexivity|].
  rewrite p_f. destruct (p c); simpl; [rewrite IH|]; reflexivity.
Qed.

Lemma drop_while_map (s : str) : drop_while p (map f s) = map f (drop_while p s).
Proof.
  induction s as [|c s IH]; simpl; [reflexivity|].
  rewrite p_f. destruct (p c); simpl; [exact IH | reflexivity].
Qed.

Lemma re_class_plus_apply (q : ascii -> bool) (s : str) :
  re_class_plus q s =
  match s with
  | c :: _ => if q c then Some (take_while q s, drop_while q s) else None
  | [] => None
  end.
Proof. unfold re_class_plus. rewrite re_class_plus_eq. reflexivity. Qed.

Lemma findall_fuel_class_map (fuel : nat) (s : str) :
  findall_fuel fuel (re_class_plus p) (map f s) =
  map (map f) (findall_fuel fuel (re_class_plus p) s).
Proof.
  revert s. induction fuel as [|fuel IH]; intros s; [reflexivity|].
  cbn [findall_fuel]. rewrite !re_class_plus_apply.
  destruct s as [|c t]; [reflexivity|].
  cbn [map]. rewrite p_f. destruct (p c) eqn:Hc.
  - change (f c :: map f t) with (map f (c :: t)).
    rewrite take_while_map, drop_while_map, IH. reflexivity.
  - apply IH.
Qed.

Lemma re_findall_class_map (s : str) :
  re_findall (re_class_plus p) (map f s) = map (map f) (re_findall (re_class_plus p) s).
Proof. unfold re_findall. rewrite length_map. apply findall_fuel_class_map. Qed.
End ClassUnderMap.

Lemma filter_map_length (f : str -> str) (q : nat -> bool) (l : list str) :
  (forall w, length (f w) = length w) ->
  List.filter (fun w => q (length w)) (map f l) =
  map f (List.filter (fun w => q (length w)) l).
Proof.
  intros Hf. induction l as [|w l IH]; simpl; [reflexivity|].
  rewrite Hf. destruct (q (length w)); simpl; rewrite IH; reflexivity.
Qed.

Lemma keyword_tokens_lower (text : str) :
  keyword_tokens (lower text) = keyword_tokens text.
Proof.
  unfold keyword_tokens, re_word. unfold lower at 2.
  rewrite (re_findall_class_map is_word lower_char is_word_lower).
  rewrite (filter_map_length (map lower_char) (fun n => (3 <? n)%nat))
    by (intros w; apply length_map).
  rewrite map_map. apply map_ext. intros w. apply lower_idempotent.
Qed.

(** X16. On texts of characters up to U+00FF, the texts of this model,
    [extract_keywords] ignores case: two texts that are equal once
    lower-cased have the same keywords with the same densities. (Lower-casing
    such a character gives one such character, and a word character stays
    one; beyond U+00FF, where lower-casing can change the length of a text,
    the statement does not apply.) *)
Theorem extract_keywords_ignores_case (text1 text2 : str) :
  lower text1 = lower text2 -> extract_keywords text1 = extract_keywords text2.
Proof.
  intros H. rewrite !extract_keywords_unfold.
  rewrite <- (keyword_tokens_lower text1), <- (keyword_tokens_lower text2), H.
  reflexivity.
Qed.

Lemma extract_keywords_ignores_case_witness :
  extract_keywords (lit "Data DATA data more") = extract_keywords (lit "data Data DATA MORE").
Proof.
  exact (extract_keywords_ignores_case (lit "Data DATA data more")
           (lit "data Data DATA MORE") eq_refl).
Defined.

Lemma count_words_distinct (l : list str) :
  length (count_words l) = length (remove_dups l).
Proof.
  destruct (count_words_keys l) as [Hnd [Hin _]].
  rewrite <- (length_map fst). apply Permutation_length.
  apply NoDup_Permutation; [apply NoDup_ListNoDup, Hnd | apply NoDup_remove_dups|].
  intros k. rewrite elem_of_remove_dups, !list_elem_of_In. apply Hin.
Qed.

(** X17. [extract_keywords] returns as many entries as the text has distinct
    qualifying tokens, but no more than five; when there are between one and
    five distinct tokens every one of them is a key and the exact densities
    add up to 100. *)
Theorem extract_keywords_count (text : str) :
  let tokens := keyword_tokens text in
  let kd := extract_keywords text in
  length kd = Nat.min 5 (length (remove_dups tokens)) /\
  ((length (remove_dups tokens) <= 5)%nat ->
   (forall k, In k tokens <-> In k (map fst kd)) /\
   (tokens <> [] -> sum_Q (map snd kd) == 100)).
Proof.
  intros tokens kd. subst kd. rewrite extract_keywords_unfold. fold tokens.
  set (sorted := sorted_desc Qlt_bool snd (density_table tokens)).
  assert (Hperm : Permutation sorted (density_table tokens)) by apply sorted_desc_perm.
  assert (Hlen : length sorted = length (remove_dups tokens)).
  { rewrite (Permutation_length Hperm). unfold density_table.
    rewrite length_map. apply count_words_distinct. }
  split; [rewrite length_firstn, Hlen; reflexivity|].
  intros Hle. rewrite firstn_all2 by lia. split.
  - intros k. destruct (count_words_keys tokens) as [_ [Hin _]].
    rewrite <- Hin, <- density_table_keys.
    split; apply Permutation_in; [symmetry|]; apply Permutation_map, Hperm.
  - intros Hne. rewrite (sum_Q_perm _ _ (Permutation_map snd Hperm)).
    unfold density_table. rewrite map_map. cbn [snd].
    rewrite sum_Q_scaled, count_words_total.
    assert (H : 0 < Qnat (length tokens))
      by (apply Qnat_pos; destruct tokens; [contradiction | simpl; lia]).
    field. lra.
Qed.

(** ** The stored scores *)

(** Rounding to two decimals keeps a value between two integers. *)
Lemma py_round2_bounds (x : Q) (a b : Z) :
  inject_Z a <= x <= inject_Z b -> inject_Z a <= py_round2 x <= inject_Z b.
Proof.
  intros [Ha Hb]. unfold py_round2. cbv zeta.
  set (y := x * 100). set (f := Qfloor y).
  assert (Hfa : (a * 100 <= f)%Z).
  { rewrite <- (Qfloor_Z (a * 100)). apply Qfloor_resp_le.
    rewrite inject_Z_mult. subst y. change (inject_Z 100) with 100. lra. }
  assert (Hfb : (f <= b * 100)%Z).
  { rewrite <- (Qfloor_Z (b * 100)). apply Qfloor_resp_le.
    rewrite inject_Z_mult. subst y. change (inject_Z 100) with 100. lra. }
  assert (Hup : Qlt_bool (y - inject_Z f) (1 # 2) = false -> (f + 1 <= b * 100)%Z).
  { intros E. apply Qlt_bool_false in E.
    destruct (Z.eq_dec f (b * 100)%Z) as [Heq|]; [|lia].
    exfalso. rewrite Heq, inject_Z_mult in E. subst y.
    change (inject_Z 100) with 100 in E. lra. }
  assert (Hn : forall n : Z, (a * 100 <= n <= b * 100)%Z ->
                 inject_Z a <= inject_Z n / 100 <= inject_Z b).
  { intros n [H1 H2]. rewrite Zle_Qle, inject_Z_mult in H1, H2.
    change (inject_Z 100) with 100 in H1, H2.
    split; [apply Qle_shift_div_l | apply Qle_shift_div_r]; lra. }
  apply Hn.
  destruct (Qlt_bool (y - inject_Z f) (1 # 2)) eqn:E1; [lia|].
  specialize (Hup eq_refl).
  destruct (Qlt_bool (1 # 2) (y - inject_Z f)); [lia|].
  destruct (Z.even f); lia.
Qed.

(** X19. The analysis stage stores as word count the number of
    whitespace-delimited words and as sentence count one more than the number
    of runs of [.], [!] and [?]: the sentence count is at least 1, also for an
    empty text, and a text without words gets the readability score 0. *)
Theorem analysis_counts
    (send_message : str -> str -> Exn + str) (content title content_type : str)
    (w : World) :
  exists a,
    analyze_content_with_ai send_message content title content_type w
      = (inr a, entered Analyze w) /\
    word_count a = count_runs not_space content /\
    sentence_count a = S (count_runs is_terminator content) /\
    (word_count a = 0%nat -> readability_score a == 0).
Proof.
  eexists. split; [apply analyze_run|].
  cbn [analysis_value readability_score word_count sentence_count].
  rewrite str_split_length. unfold re_terminators. rewrite re_split_class_length.
  split; [reflexivity|]. split; [reflexivity|].
  intros H0.
  assert (Hr : 0 <= calculate_readability content <= 0).
  { rewrite calculate_readability_unfold. unfold spec_word_count in *.
    rewrite H0. simpl. lra. }
  pose proof (py_round2_bounds _ 0 0 Hr) as Hb.
  change (inject_Z 0) with 0 in Hb. lra.
Qed.

(** ** The scores in binary64 *)

Lemma round_half_even_bounds (y : Q) (a b : Z) :
  inject_Z a <= y <= inject_Z b -> (a <= round_half_even y <= b)%Z.
Proof.
  intros [Ha Hb]. unfold round_half_even. cbv zeta.
  set (f := Qfloor y).
  assert (Hfa : (a <= f)%Z) by (rewrite <- (Qfloor_Z a); apply Qfloor_resp_le, Ha).
  assert (Hfb : (f <= b)%Z) by (rewrite <- (Qfloor_Z b); apply Qfloor_resp_le, Hb).
  assert (Hup : Qlt_bool (y - inject_Z f) (1 # 2) = false -> (f + 1 <= b)%Z).
  { intros E. apply Qlt_bool_false in E.
    destruct (Z.eq_dec f b) as [Heq|]; [|lia].
    exfalso. rewrite Heq in E. lra. }
  destruct (Qlt_bool (y - inject_Z f) (1 # 2)) eqn:E1; [lia|].
  specialize (Hup eq_refl).
  destruct (Qlt_bool (1 # 2) (y - inject_Z f)); [lia|].
  destruct (Z.even f); lia.
Qed.

Lemma pow2_nonpos (e : Z) : (e <= 0)%Z -> pow2 e * inject_Z (2 ^ (- e)) == 1.
Proof.
  intros He. unfold pow2.
  assert (Hp : 0 < inject_Z (2 ^ (- e))).
  { change 0 with (inject_Z 0). rewrite <- Zlt_Qlt. apply Z.pow_pos_nonneg; lia. }
  destruct (0 <=? e)%Z eqn:E.
  - apply Z.leb_le in E. assert (e = 0%Z) by lia. subst e. reflexivity.
  - field. lra.
Qed.

(** A positive rational is at least the power of two of its exponent. *)
Lemma Qlog2_large (x : Q) (k : Z) :
  0 < x -> (0 <= k)%Z -> (k <= Qlog2 x)%Z -> inject_Z (2 ^ k) <= x.
Proof.
  intros Hx Hk Hl. unfold Qlog2 in Hl. cbv zeta in Hl.
  set (e := (Z.log2 (Qnum x) - Z.log2 (Z.pos (Qden x)))%Z) in *.
  destruct (Qle_bool (pow2 e) x) eqn:T.
  - apply Qle_bool_iff in T. unfold pow2 in T.
    assert (E : (0 <=? e)%Z = true) by (apply Z.leb_le; lia).
    rewrite E in T. eapply Qle_trans; [|exact T].
    rewrite <- Zle_Qle. apply Z.pow_le_mono_r; lia.
  - destruct x as [n d]. cbn [Qnum Qden] in e.
    assert (Hn : (0 < n)%Z) by (unfold Qlt in Hx; simpl in Hx; lia).
    destruct (Z.log2_spec n Hn) as [Hn1 _].
    destruct (Z.log2_spec (Z.pos d) (Pos2Z.is_pos d)) as [_ Hd2].
    pose proof (Z.log2_nonneg n) as Hln.
    pose proof (Z.log2_nonneg (Z.pos d)) as Hld.
    unfold Qle. cbn [Qnum Qden inject_Z]. rewrite Z.mul_1_r.
    assert (H1 : (2 ^ k * Z.pos d <= 2 ^ (e - 1) * Z.pos d)%Z).
    { apply Z.mul_le_mono_nonneg_r; [lia|]. apply Z.pow_le_mono_r; lia. }
    assert (H2 : (2 ^ (e - 1) * Z.pos d < 2 ^ (e - 1) * 2 ^ Z.succ (Z.log2 (Z.pos d)))%Z).
    { apply Z.mul_lt_mono_pos_l; [apply Z.pow_pos_nonneg; lia | exact Hd2]. }
    rewrite <- Z.pow_add_r in H2 by lia.
    replace (e - 1 + Z.succ (Z.log2 (Z.pos d)))%Z with (Z.log2 n) in H2 by (subst e; lia).
    lia.
Qed.

Lemma Qmagnitude_pos (x : Q) : ~ x == 0 -> 0 < Qmagnitude x.
Proof.
  intros H. unfold Qmagnitude. destruct (Qlt_bool x 0) eqn:E.
  - apply Qlt_bool_iff in E. lra.
  - apply Qlt_bool_false in E. destruct (Qle_lt_or_eq _ _ E) as [H1|H1]; [exact H1|].
    exfalso. apply H. symmetry. exact H1.
Qed.

(** Rounding to binary64 keeps a value between two integers that are floats
    themselves: below 2^53 the unit in the last place is no more than 1, so
    the integers are multiples of it. *)
Lemma round_binary64_bounds (x : Q) (a b : Z) :
  (- 2 ^ 53 < a)%Z -> (b < 2 ^ 53)%Z ->
  inject_Z a <= x <= inject_Z b ->
  inject_Z a <= round_binary64 x <= inject_Z b.
Proof.
  intros Ha Hb [Hax Hxb]. unfold round_binary64.
  destruct (Qeq_bool x 0) eqn:E0.
  { apply Qeq_bool_iff in E0. rewrite E0 in Hax, Hxb. split; assumption. }
  apply Qeq_bool_neq in E0. cbv zeta. rewrite Qred_correct.
  set (e := Z.max (Qlog2 (Qmagnitude x) - 52) (-1074)).
  assert (He : (e <= 0)%Z).
  { subst e. apply Z.max_lub; [|lia].
    destruct (Z_le_gt_dec (Qlog2 (Qmagnitude x)) 52) as [H|H]; [lia|].
    exfalso.
    assert (H53 : inject_Z (2 ^ 53) <= Qmagnitude x)
      by (apply Qlog2_large; [apply Qmagnitude_pos, E0 | lia | lia]).
    assert (Hm : Qmagnitude x < inject_Z (2 ^ 53)).
    { assert (Ha' : inject_Z (- 2 ^ 53) < inject_Z a) by (rewrite <- Zlt_Qlt; exact Ha).
      assert (Hb' : inject_Z b < inject_Z (2 ^ 53)) by (rewrite <- Zlt_Qlt; exact Hb).
      change (inject_Z (- 2 ^ 53)) with (- inject_Z (2 ^ 53)) in Ha'.
      unfold Qmagnitude. destruct (Qlt_bool x 0); lra. }
    lra. }
  pose proof (pow2_nonpos e He) as Hp.
  set (s := inject_Z (2 ^ (- e))) in *.
  assert (Hs : 0 < s).
  { subst s. change 0 with (inject_Z 0). rewrite <- Zlt_Qlt. apply Z.pow_pos_nonneg; lia. }
  assert (Hq : 0 < pow2 e).
  { destruct (Qlt_le_dec 0 (pow2 e)) as [H|H]; [exact H|].
    exfalso. assert (pow2 e * s <= 0) by nra. lra. }
  assert (Hy : x / pow2 e == x * s).
  { apply (Qmult_inj_r _ _ (pow2 e)); [lra|].
    transitivity x; [field; lra|].
    rewrite <- Qmult_assoc, (Qmult_comm s), Hp. ring. }
  assert (Hr : (a * 2 ^ (- e) <= round_half_even (x / pow2 e) <= b * 2 ^ (- e))%Z).
  { apply round_half_even_bounds. rewrite !inject_Z_mult. fold s. rewrite Hy.
    split; apply Qmult_le_compat_r; lra. }
  destruct Hr as [Hr1 Hr2]. rewrite Zle_Qle, inject_Z_mult in Hr1, Hr2. fold s in Hr1, Hr2.
  set (n := inject_Z (round_half_even (x / pow2 e))) in *.
  split.
  - assert (inject_Z a * s * pow2 e <= n * pow2 e) by (apply Qmult_le_compat_r; lra).
    assert (inject_Z a * s * pow2 e == inject_Z a)
      by (rewrite <- Qmult_assoc, (Qmult_comm s), Hp; ring).
    lra.
  - assert (n * pow2 e <= inject_Z b * s * pow2 e) by (apply Qmult_le_compat_r; lra).
    assert (inject_Z b * s * pow2 e == inject_Z b)
      by (rewrite <- Qmult_assoc, (Qmult_comm s), Hp; ring).
    lra.
Qed.

(** On quotients of small integers [round_binary64] is the division of
    [SpecFloat]. *)
Lemma round_binary64_is_division :
  forallb (fun p : nat * nat =>
             Qeq_bool (float_div (Qnat (fst p)) (Qnat (snd p)))
                      (b64_to_Q (b64_div (b64_of_nat (fst p)) (b64_of_nat (snd p)))))
          (flat_map (fun a => map (fun b => (a, S b)) (seq 0 40)) (seq 0 40)) = true.
Proof. vm_compute. reflexivity. Qed.

Ltac float_bounds a b :=
  apply (round_binary64_bounds _ a b); [reflexivity | reflexivity |].

Lemma py_round2_binary64_bounds (x : Q) (a b : Z) :
  (- 2 ^ 53 < a)%Z -> (b < 2 ^ 53)%Z ->
  inject_Z a <= x <= inject_Z b ->
  inject_Z a <= py_round2_binary64 x <= inject_Z b.
Proof.
  intros Ha Hb H. unfold py_round2_binary64.
  apply round_binary64_bounds; [exact Ha | exact Hb |].
  apply py_round2_bounds. exact H.
Qed.

Lemma calculate_readability_binary64_range (text : str) :
  0 <= calculate_readability_binary64 text <= 100.
Proof.
  unfold calculate_readability_binary64. cbv zeta.
  destruct (_ || _); [lra|].
  rewrite py_clamp_eq. apply clamp_range.
Qed.

Lemma calculate_seo_score_binary64_range (text title : str) :
  10 <= calculate_seo_score_binary64 text title <= 100.
Proof.
  unfold calculate_seo_score_binary64, float_add, float_mul, float_div. cbv zeta.
  set (n := length (str_split text)).
  set (u := size (list_to_set (map lower (str_split text)) : gset str)).
  set (s1 := if (300 <=? n)%nat && (n <=? 2000)%nat then round_binary64 (0 + 30)
             else if (2000 <? n)%nat then round_binary64 (0 + 20)
             else round_binary64 (0 + 10)).
  assert (H1 : 10 <= s1 <= 30).
  { subst s1. destruct (_ && _); [|destruct (2000 <? n)%nat].
    - float_bounds 10%Z 30%Z. change (inject_Z 10) with 10. change (inject_Z 30) with 30. lra.
    - float_bounds 10%Z 30%Z. change (inject_Z 10) with 10. change (inject_Z 30) with 30. lra.
    - float_bounds 10%Z 30%Z. change (inject_Z 10) with 10. change (inject_Z 30) with 30. lra. }
  set (s2 := if contains (lower title) (lower text) then round_binary64 (s1 + 20) else s1).
  assert (H2 : 10 <= s2 <= 50).
  { subst s2. destruct (contains _ _); [|lra].
    float_bounds 10%Z 50%Z. change (inject_Z 10) with 10. change (inject_Z 50) with 50. lra. }
  set (s3 := if contains_char newline text || (500 <? length text)%nat
             then round_binary64 (s2 + 20) else s2).
  assert (H3 : 10 <= s3 <= 70).
  { subst s3. destruct (_ || _); [|lra].
    float_bounds 10%Z 70%Z. change (inject_Z 10) with 10. change (inject_Z 70) with 70. lra. }
  rewrite py_min_eq.
  assert (H4 : 10 <= (if (0 <? n)%nat
                      then round_binary64
                             (s3 + round_binary64 (round_binary64 (Qnat u / Qnat n) * 30))
                      else s3) <= 100).
  { destruct (0 <? n)%nat eqn:Hn; [|lra].
    apply Nat.ltb_lt in Hn.
    assert (Hu : (u <= n)%nat).
    { subst u n. rewrite size_list_to_set_remove_dups.
      etransitivity; [apply remove_dups_length_le|]. rewrite length_map. reflexivity. }
    assert (Hq : 0 <= Qnat u / Qnat n <= 1).
    { pose proof (Qnat_pos n Hn). pose proof (Qnat_nonneg u). pose proof (Qnat_le u n Hu).
      split; [apply Qle_shift_div_l | apply Qle_shift_div_r]; lra. }
    assert (Hv : 0 <= round_binary64 (Qnat u / Qnat n) <= 1)
      by (float_bounds 0%Z 1%Z; exact Hq).
    assert (Hp : 0 <= round_binary64 (round_binary64 (Qnat u / Qnat n) * 30) <= 30).
    { float_bounds 0%Z 30%Z. change (inject_Z 0) with 0. change (inject_Z 30) with 30. lra. }
    float_bounds 10%Z 100%Z. change (inject_Z 10) with 10. change (inject_Z 100) with 100.
    lra. }
  destruct (Q.min_spec 100 (if (0 <? n)%nat
                             then round_binary64
                                    (s3 + round_binary64 (round_binary64 (Qnat u / Qnat n) * 30))
                             else s3)) as [[_ ->]|[_ ->]]; lra.
Qed.

(** X18. The scores the analysis stores, [round(readability, 2)] and
    [round(seo_score, 2)] computed the way the interpreter does, in binary64
    with every operation rounded, are in [0,100] and in [10,100] for every
    text and title. Rounding decides what is stored: for [hello hello] the
    formula gives a float just above 35.605 and 35.61 is stored, where exact
    arithmetic gives 35.605 and would store 35.60. *)
Theorem stored_scores_in_range (text title : str) :
  0 <= py_round2_binary64 (calculate_readability_binary64 text) <= 100 /\
  10 <= py_round2_binary64 (calculate_seo_score_binary64 text title) <= 100 /\
  calculate_readability_binary64 (lit "hello hello") == 78296223013929 # 2199023255552 /\
  py_round2_binary64 (calculate_readability_binary64 (lit "hello hello"))
    == float_lit (3561 # 100) /\
  calculate_readability (lit "hello hello") == 35605 # 1000 /\
  py_round2 (calculate_readability (lit "hello hello")) == 3560 # 100.
Proof.
  split.
  { apply (py_round2_binary64_bounds _ 0 100); [reflexivity | reflexivity |].
    apply calculate_readability_binary64_range. }
  split.
  { apply (py_round2_binary64_bounds _ 10 100); [reflexivity | reflexivity |].
    apply calculate_seo_score_binary64_range. }
  repeat split; vm_compute; reflexivity.
Qed.
